(** * kraul: a verification development for the crawler in [kraul.go]

    The development follows the source file top-down:

    - [GoStrings], [GoPath]: the few functions of Go's [strings] and [path]
      packages that [kraul.go] calls;
    - [URL], [Token]: the data of [net/url] and [golang.org/x/net/html] that
      the program reads and writes;
    - Section [Kraul]: [getAttribute], [getHref], [resolveHref],
      [getPhoneNumber], [extractLinks], [loadPage], [isWebUrl], the
      scheduler loop of [startCrawling] together with its [crawler]
      goroutines, and [main]; the section is parametric in [url.Parse],
      [URL.String] and the outside world (what an HTTP GET returns);
    - [GoUrl]: an executable model of [url.Parse] and [URL.String], used to
      run the program on concrete inputs;
    - the properties of the program. *)

From Stdlib Require Import ZArith Ascii String List Bool Lia.
From stdpp Require Import base gmap strings list.

Local Open Scope Z_scope.

(* ===================================================================== *)
(** * Go's [strings] and [path] packages *)
(* ===================================================================== *)

Module GoStrings.

(** [s[n:]] for [0 <= n <= len(s)]. *)
Fixpoint drop (n : nat) (s : string) : string :=
  match n, s with
  | O, _ => s
  | S _, EmptyString => EmptyString
  | S n', String _ s' => drop n' s'
  end.

(** [s[:n]] for [0 <= n <= len(s)]. *)
Fixpoint take (n : nat) (s : string) : string :=
  match n, s with
  | O, _ => EmptyString
  | S _, EmptyString => EmptyString
  | S n', String c s' => String c (take n' s')
  end.

Definition len (s : string) : Z := Z.of_nat (String.length s).

(** [len(ch)] of a buffered channel or a slice. *)
Definition len_list {A : Type} (l : list A) : Z := Z.of_nat (List.length l).

(** [strings.HasPrefix(s, prefix)]. *)
Definition HasPrefix (s prefix : string) : bool := String.prefix prefix s.

(** [strings.IndexByte(s, c)]: the first position of [c], or [-1]. *)
Fixpoint IndexByte (s : string) (c : ascii) : Z :=
  match s with
  | EmptyString => -1
  | String d s' =>
      if Ascii.eqb d c then 0
      else let i := IndexByte s' c in if i <? 0 then -1 else i + 1
  end.

(** [strings.LastIndexByte(s, c)]: the last position of [c], or [-1]. *)
Fixpoint LastIndexByte (s : string) (c : ascii) : Z :=
  match s with
  | EmptyString => -1
  | String d s' =>
      let i := LastIndexByte s' c in
      if 0 <=? i then i + 1
      else if Ascii.eqb d c then 0 else -1
  end.

(** [strings.Index(s, sub)]: the first position of [sub], or [-1]. *)
Fixpoint Index (s sub : string) : Z :=
  if String.prefix sub s then 0
  else match s with
       | EmptyString => -1
       | String _ s' =>
           let i := Index s' sub in if i <? 0 then -1 else i + 1
       end.

Definition Contains (s sub : string) : bool := 0 <=? Index s sub.

(** [strings.Cut(s, sep)] for a one-byte separator. *)
Definition CutByte (s : string) (c : ascii) : string * string * bool :=
  let i := IndexByte s c in
  if 0 <=? i
  then (take (Z.to_nat i) s, drop (Z.to_nat (i + 1)) s, true)
  else (s, EmptyString, false).

(** [strings.Count(s, c)] for a one-byte pattern. *)
Fixpoint CountByte (s : string) (c : ascii) : Z :=
  match s with
  | EmptyString => 0
  | String d s' => (if Ascii.eqb d c then 1 else 0) + CountByte s' c
  end.

Definition HasSuffixByte (s : string) (c : ascii) : bool :=
  match String.get (String.length s - 1) s with
  | Some d => negb (String.eqb s EmptyString) && Ascii.eqb d c
  | None => false
  end.

Definition lower (c : ascii) : ascii :=
  let n := nat_of_ascii c in
  if ((65 <=? n)%nat && (n <=? 90)%nat)%bool then ascii_of_nat (n + 32) else c.

(** [strings.ToLower] on ASCII letters. *)
Fixpoint ToLower (s : string) : string :=
  match s with
  | EmptyString => EmptyString
  | String c s' => String (lower c) (ToLower s')
  end.

End GoStrings.

Module GoPath.

(** [path.Split]:
<<
  i := strings.LastIndex(path, "/")
  return path[:i+1], path[i+1:]
>> *)
Definition Split (path : string) : string * string :=
  let i := GoStrings.LastIndexByte path "/"%char in
  (GoStrings.take (Z.to_nat (i + 1)) path, GoStrings.drop (Z.to_nat (i + 1)) path).

End GoPath.

(* ===================================================================== *)
(** * Data: errors, URLs, HTML tokens *)
(* ===================================================================== *)

(** Go's [error] values the program can see: [errors.New(msg)], the
    [*url.Error] of a failed [url.Parse], and whatever [http.Get] reports. *)
Inductive error : Type :=
| errors_New (msg : string)
| url_Error (op url msg : string)
| http_Error (msg : string).

(** A Go call returning a pointer and an [error]: [Ok v] is the pair of a
    pointer to [v] and [nil]; [Err e] is the pair of the [nil] pointer and
    [e]. *)
Inductive result (A : Type) : Type :=
| Ok (v : A)
| Err (e : error).
Arguments Ok {A} v.
Arguments Err {A} e.

(** [url.Userinfo]. *)
Record Userinfo : Type := mkUserinfo {
  username : string;
  password : string;
  passwordSet : bool
}.

(** [url.URL], field by field. [User] is a pointer in Go; [None] is [nil]. *)
Record URL : Type := mkURL {
  Scheme : string;
  Opaque : string;
  User : option Userinfo;
  Host : string;
  Path : string;
  RawPath : string;
  OmitHost : bool;
  ForceQuery : bool;
  RawQuery : string;
  Fragment : string;
  RawFragment : string
}.

Definition emptyURL : URL :=
  mkURL "" "" None "" "" "" false false "" "" "".

Definition set_Scheme (u : URL) (v : string) : URL :=
  mkURL v (Opaque u) (User u) (Host u) (Path u) (RawPath u) (OmitHost u)
        (ForceQuery u) (RawQuery u) (Fragment u) (RawFragment u).
Definition set_Host (u : URL) (v : string) : URL :=
  mkURL (Scheme u) (Opaque u) (User u) v (Path u) (RawPath u) (OmitHost u)
        (ForceQuery u) (RawQuery u) (Fragment u) (RawFragment u).
Definition set_Path (u : URL) (v : string) : URL :=
  mkURL (Scheme u) (Opaque u) (User u) (Host u) v (RawPath u) (OmitHost u)
        (ForceQuery u) (RawQuery u) (Fragment u) (RawFragment u).
Definition set_Fragment (u : URL) (v : string) : URL :=
  mkURL (Scheme u) (Opaque u) (User u) (Host u) (Path u) (RawPath u) (OmitHost u)
        (ForceQuery u) (RawQuery u) v (RawFragment u).

(** [html.TokenType]. *)
Inductive TokenType : Type :=
| ErrorToken
| TextToken
| StartTagToken
| EndTagToken
| SelfClosingTagToken
| CommentToken
| DoctypeToken.

(** [html.Attribute] and [html.Token]. *)
Record Attribute : Type := mkAttribute {
  Namespace : string;
  Key : string;
  Val : string
}.

Record Token : Type := mkToken {
  Type_ : TokenType;
  Data : string;
  Attr : list Attribute
}.

(** What a function call can do besides returning: a run-time panic
    (nil dereference, index out of range). *)
Inductive outcome (A : Type) : Type :=
| Returns (v : A)
| Panics (msg : string).
Arguments Returns {A} v.
Arguments Panics {A} msg.

(* ===================================================================== *)
(** * The program *)
(* ===================================================================== *)

Section Kraul.

(** [url.Parse] and [URL.String] of Go's [net/url]. *)
Variable url_Parse : string -> result URL.
Variable url_String : URL -> string.

(** ** [getAttribute], [getHref] *)

(** The loop over [token.Attr] stops at the first attribute called [name];
    the named results start as [(false, "")]. *)
Fixpoint getAttribute_loop (attrs : list Attribute) (name : string) : bool * string :=
  match attrs with
  | [] => (false, "")
  | a :: rest =>
      if String.eqb (Key a) name then (true, Val a)
      else getAttribute_loop rest name
  end.

Definition getAttribute (token : Token) (name : string) : bool * string :=
  getAttribute_loop (Attr token) name.

Definition getHref (token : Token) : bool * string :=
  getAttribute token "href".

(** ** [resolveHref] *)

(** The [switch url.Scheme]: [None] is the [default] branch, which returns
    the parsed reference as it is. *)
Definition resolve_scheme (base url : URL) : option URL :=
  if String.eqb (Scheme url) "" then Some (set_Scheme url (Scheme base))
  else if String.eqb (Scheme url) "http" || String.eqb (Scheme url) "https"
          || String.eqb (Scheme url) "ftp"
  then Some url
  else None.

Definition resolve_host (base url : URL) : URL :=
  if String.eqb (Host url) "" then set_Host url (Host base) else url.

Definition resolve_path (base url : URL) : URL :=
  if String.eqb (Path url) "" then
    if String.eqb (Path base) "" then set_Path url "/"
    else set_Path url (Path base)
  else if negb (GoStrings.HasPrefix (Path url) "/") then
    let '(baseBasePath, _) := GoPath.Split (Path base) in
    set_Path url (baseBasePath +:+ Path url)
  else url.

Definition resolveHref (base : URL) (href : string) : result URL :=
  if String.eqb (Scheme base) "" || String.eqb (Host base) "" then
    Err (errors_New "Base URL has no scheme / host")
  else
    match url_Parse href with
    | Err err => Err err
    | Ok url =>
        match resolve_scheme base url with
        | None => Ok url
        | Some url =>
            (* the last [if err != nil] cannot fire: [err] is [nil] here *)
            Ok (resolve_path base (resolve_host base url))
        end
    end.

(** ** [getPhoneNumber] *)

(** [regexp.MustCompile(`^tel://(.+)$`).FindStringSubmatch(value)]: the
    pattern is anchored at both ends of the text and [.] matches every
    byte but a line feed, so a match is the whole of [value]; the result
    is [nil] or the slice of the match and its one group. *)
Definition phoneNumberRegex_FindStringSubmatch (value : string) : option (list string) :=
  let rest := GoStrings.drop 6 value in
  if GoStrings.HasPrefix value "tel://"
     && negb (String.eqb rest "")
     && (GoStrings.IndexByte rest "010"%char <? 0)
  then Some [value; rest]
  else None.

Definition getPhoneNumber (value : string) : bool * string :=
  match phoneNumberRegex_FindStringSubmatch value with
  | None => (false, "")
  | Some results => (true, nth 0 results "")
  end.

(** ** [extractLinks] *)

(** The local variables of [extractLinks] that live across iterations.
    [baseURL] is a pointer: [None] is [nil]. *)
Record ExtractState : Type := mkExtractState {
  inHeader : bool;
  baseURL : option URL;
  links : list URL;
  phoneNumbers : list string
}.

Definition set_inHeader (st : ExtractState) (b : bool) : ExtractState :=
  mkExtractState b (baseURL st) (links st) (phoneNumbers st).
Definition set_baseURL (st : ExtractState) (p : option URL) : ExtractState :=
  mkExtractState (inHeader st) p (links st) (phoneNumbers st).
Definition add_link (st : ExtractState) (u : URL) : ExtractState :=
  mkExtractState (inHeader st) (baseURL st) (links st ++ [u]) (phoneNumbers st).
Definition add_phoneNumber (st : ExtractState) (n : string) : ExtractState :=
  mkExtractState (inHeader st) (baseURL st) (links st) (phoneNumbers st ++ [n]).

(** [*p = v]: a store through [nil] panics. *)
Definition store (p : option URL) (v : URL) : outcome (option URL) :=
  match p with
  | Some _ => Returns (Some v)
  | None => Panics "invalid memory address or nil pointer dereference"
  end.

(** [*p]: a load through [nil] panics. *)
Definition load (p : option URL) : outcome URL :=
  match p with
  | Some v => Returns v
  | None => Panics "invalid memory address or nil pointer dereference"
  end.

(** [case "base":] *)
Definition extract_base (documentUrl : URL) (st : ExtractState) (t : Token)
  : outcome ExtractState :=
  if inHeader st then
    let '(ok, rawBaseUrl) := getAttribute t "href" in
    if ok then
      match url_Parse rawBaseUrl with
      | Ok u => Returns (set_baseURL st (Some u))
      | Err _ =>
          (* [baseURL] is [nil] now, and [*baseURL = documentUrl] follows *)
          match store None documentUrl with
          | Returns p => Returns (set_baseURL st p)
          | Panics msg => Panics msg
          end
      end
    else Returns st
  else Returns st.

(** [case "a":] *)
Definition extract_a (st : ExtractState) (t : Token) : outcome ExtractState :=
  let '(ok, rawUrl) := getHref t in
  if negb ok then Returns st
  else
    let '(ok, phoneNumber) := getPhoneNumber rawUrl in
    if ok then Returns (add_phoneNumber st phoneNumber)
    else
      match load (baseURL st) with
      | Panics msg => Panics msg
      | Returns base =>
          match resolveHref base rawUrl with
          | Err _ => Returns st
          | Ok url => Returns (add_link st (set_Fragment url ""))
          end
      end.

(** One iteration of the loop on a token that is not the [ErrorToken]. *)
Definition extract_token (documentUrl : URL) (st : ExtractState) (t : Token)
  : outcome ExtractState :=
  match Type_ t with
  | StartTagToken =>
      if String.eqb (Data t) "head" then Returns (set_inHeader st true)
      else if String.eqb (Data t) "base" then extract_base documentUrl st t
      else if String.eqb (Data t) "a" then extract_a st t
      else Returns st
  | _ => Returns st
  end.

(** The [for] loop over [z.Next()]. The tokenizer's output is the list of
    tokens it yields; after the last one it yields [ErrorToken] forever. *)
Fixpoint extract_loop (documentUrl : URL) (st : ExtractState) (tokens : list Token)
  : outcome ExtractState :=
  match tokens with
  | [] => Returns st
  | t :: rest =>
      match Type_ t with
      | ErrorToken => Returns st
      | _ =>
          match extract_token documentUrl st t with
          | Returns st' => extract_loop documentUrl st' rest
          | Panics msg => Panics msg
          end
      end
  end.

Definition extract_init (documentUrl : URL) : ExtractState :=
  mkExtractState false (Some documentUrl) [] [].

Definition extractLinks (documentUrl : URL) (tokens : list Token)
  : outcome (list URL * list string) :=
  match extract_loop documentUrl (extract_init documentUrl) tokens with
  | Returns st => Returns (links st, phoneNumbers st)
  | Panics msg => Panics msg
  end.

(** ** [IndexedWebPage], [loadPage] *)

Record IndexedWebPage : Type := mkIndexedWebPage {
  page_URL : URL;
  Content : string;
  Links : list URL;
  PhoneNumbers : list string
}.

(** The outside world: [http.Get] on an address string gives an error or a
    response body, and the HTML tokenizer turns a body into tokens. *)
Variable http_Get : string -> result string.
Variable html_Tokenizer : string -> list Token.

Definition loadPage (url : URL) : outcome (result IndexedWebPage) :=
  match http_Get (url_String url) with
  | Err err => Returns (Err err)
  | Ok body =>
      match extractLinks url (html_Tokenizer body) with
      | Panics msg => Panics msg
      | Returns (links, phoneNumbers) =>
          Returns (Ok (mkIndexedWebPage url body links phoneNumbers))
      end
  end.

(** ** [isWebUrl] *)

Definition isWebUrl (url : URL) : bool :=
  if String.eqb (Scheme url) "http" || String.eqb (Scheme url) "https"
  then true
  else false.

(** ** [crawler], [startCrawling] and the loop of [main] *)

(** A [crawler] goroutine is either at [range urlChannel] or holds the
    outcome of [loadPage] and is at its send on [errorChannel] or
    [resultChannel], both unbuffered. *)
Inductive CrawlerPC : Type :=
| CrawlerReceive
| CrawlerSend (url : URL) (r : result IndexedWebPage).

(** The scheduler goroutine ([startCrawling]) is at the [select], at
    [resultChannel <- result], or inside [for _, url := range result.Links]
    with the links still to visit. There is no other place: the [for]
    around the [select] has no [break] and no [return]. *)
Inductive SchedulerPC : Type :=
| AtSelect
| AtForward (result : IndexedWebPage)
| InLinks (rest : list URL).

(** The main goroutine is at [range chResponses] or in [storeResult]. *)
Inductive MainPC : Type :=
| MainReceive
| MainStore (result : IndexedWebPage).

(** [storeResult], the PUT to the index: [None] is a [nil] error. *)
Variable storeResult : IndexedWebPage -> option error.

(** The state of a crawl. [sent] and [received] are history variables:
    every value sent on, and received from, [urlChannel], oldest first. *)
Record Crawl : Type := mkCrawl {
  urlChannel : list URL;
  foundUrls : gmap string bool;
  urlsCounter : Z;
  crawlers : list CrawlerPC;
  scheduler : SchedulerPC;
  main_pc : MainPC;
  sent : list URL;
  received : list URL
}.

(** [make(chan url.URL, 10000)] *)
Definition urlChannel_cap : Z := 10000.

(** The number of [go crawler(...)] statements executed. *)
Definition crawler_count : nat := 5.

Inductive System : Type :=
| Live (c : Crawl)
| Crashed (msg : string)
| Exited (status : Z).

(** The state when [startCrawling] reaches its [for]: five crawlers
    started, [urlsCounter] 1, the start address sent on [urlChannel],
    [foundUrls] empty. *)
Definition startCrawling_init (startUrl : URL) : Crawl :=
  mkCrawl [startUrl] ∅ 1 (replicate crawler_count CrawlerReceive)
          AtSelect MainReceive [startUrl] [].

(** A crawler receives the oldest address of [urlChannel] and runs
    [loadPage] on it; a panic in a goroutine ends the process. *)
Definition crawler (c : Crawl) (i : nat) : option System :=
  match crawlers c !! i, urlChannel c with
  | Some CrawlerReceive, url :: queue =>
      match loadPage url with
      | Panics msg => Some (Crashed msg)
      | Returns r =>
          Some (Live (mkCrawl queue (foundUrls c) (urlsCounter c)
                              (<[i := CrawlerSend url r]> (crawlers c))
                              (scheduler c) (main_pc c)
                              (sent c) (received c ++ [url])))
      end
  | _, _ => None
  end.

(** The [select] takes the message of crawler [i]: either case decrements
    [urlsCounter]; a result goes on to [resultChannel <- result]. *)
Definition startCrawling_select (c : Crawl) (i : nat) : option System :=
  match scheduler c, crawlers c !! i with
  | AtSelect, Some (CrawlerSend _ r) =>
      Some (Live (mkCrawl (urlChannel c) (foundUrls c) (urlsCounter c - 1)
                          (<[i := CrawlerReceive]> (crawlers c))
                          (match r with
                           | Err _ => AtSelect
                           | Ok result => AtForward result
                           end)
                          (main_pc c) (sent c) (received c)))
  | _, _ => None
  end.

(** [resultChannel <- result] meets [range chResponses] in [main]. *)
Definition startCrawling_forward (c : Crawl) : option System :=
  match scheduler c, main_pc c with
  | AtForward result, MainReceive =>
      Some (Live (mkCrawl (urlChannel c) (foundUrls c) (urlsCounter c)
                          (crawlers c) (InLinks (Links result))
                          (MainStore result) (sent c) (received c)))
  | _, _ => None
  end.

(** One iteration of [for _, url := range result.Links], or the end of the
    loop. The send on a full [urlChannel] blocks. *)
Definition startCrawling_link (c : Crawl) : option System :=
  match scheduler c with
  | InLinks [] =>
      Some (Live (mkCrawl (urlChannel c) (foundUrls c) (urlsCounter c)
                          (crawlers c) AtSelect (main_pc c)
                          (sent c) (received c)))
  | InLinks (url :: rest) =>
      if isWebUrl url then
        let url := set_Fragment url "" in
        let urlString := url_String url in
        if negb (default false (foundUrls c !! urlString)) then
          if GoStrings.len_list (urlChannel c) <? urlChannel_cap then
            Some (Live (mkCrawl (urlChannel c ++ [url])
                                (<[urlString := true]> (foundUrls c))
                                (urlsCounter c + 1)
                                (crawlers c) (InLinks rest) (main_pc c)
                                (sent c ++ [url]) (received c)))
          else None
        else
          Some (Live (mkCrawl (urlChannel c) (foundUrls c) (urlsCounter c)
                              (crawlers c) (InLinks rest) (main_pc c)
                              (sent c) (received c)))
      else
        Some (Live (mkCrawl (urlChannel c) (foundUrls c) (urlsCounter c)
                            (crawlers c) (InLinks rest) (main_pc c)
                            (sent c) (received c)))
  | _ => None
  end.

(** The body of [for result := range chResponses]: a failed
    [storeResult] ends the process through [log.Fatalln], status 1. *)
Definition main_loop (c : Crawl) : option System :=
  match main_pc c with
  | MainStore result =>
      match storeResult result with
      | Some _ => Some (Exited 1)
      | None =>
          Some (Live (mkCrawl (urlChannel c) (foundUrls c) (urlsCounter c)
                              (crawlers c) (scheduler c) MainReceive
                              (sent c) (received c)))
      end
  | MainReceive => None
  end.

(** Which goroutine moves next. *)
Inductive Label : Type :=
| CrawlerTake (i : nat)
| SchedulerSelect (i : nat)
| SchedulerForward
| SchedulerLink
| MainStoreResult.

(** One step; [None] when the goroutine named by the label is blocked. *)
Definition step (c : Crawl) (l : Label) : option System :=
  match l with
  | CrawlerTake i => crawler c i
  | SchedulerSelect i => startCrawling_select c i
  | SchedulerForward => startCrawling_forward c
  | SchedulerLink => startCrawling_link c
  | MainStoreResult => main_loop c
  end.

(** A schedule is a list of labels; no goroutine moves in a crashed or
    exited process. *)
Fixpoint run (s : System) (schedule : list Label) : option System :=
  match schedule with
  | [] => Some s
  | l :: rest =>
      match s with
      | Live c =>
          match step c l with
          | Some s' => run s' rest
          | None => None
          end
      | _ => None
      end
  end.

(** ** [main] *)

(** What the process has done when [main] reaches its [for]: it has
    exited, having printed to standard output, or panicked, or the crawl
    is running. Returning from [main] ends the process with status 0. *)
Inductive Process : Type :=
| ProcessExit (status : Z) (printed : list error)
| ProcessPanic (msg : string)
| ProcessCrawl (c : Crawl).

Definition main (os_Args : list string) : Process :=
  match os_Args !! 1%nat with
  | None => ProcessPanic "index out of range"
  | Some arg =>
      match url_Parse arg with
      | Err err => ProcessExit 0 [err]
      | Ok url => ProcessCrawl (startCrawling_init url)
      end
  end.

End Kraul.

(* ===================================================================== *)
(** * An executable model of [net/url] *)
(* ===================================================================== *)

(** [url.Parse] and [URL.String], function by function after the Go
    standard library, on byte strings. The program above does not depend on
    this module; it serves to run the program on concrete addresses. *)
Module GoUrl.

Import GoStrings.

Definition byte (c : ascii) : Z := Z.of_nat (nat_of_ascii c).

Definition between (lo c hi : ascii) : bool :=
  (byte lo <=? byte c) && (byte c <=? byte hi).

Definition is_byte_in (c : ascii) (set : string) : bool :=
  0 <=? IndexByte set c.

Definition dquote : ascii := ascii_of_nat 34.
Definition squote : ascii := ascii_of_nat 39.

(** [strconv.Quote] on text without bytes that need escaping. *)
Definition quote (s : string) : string :=
  String dquote (s +:+ String dquote "").

Inductive encoding : Type :=
| encodePath
| encodePathSegment
| encodeHost
| encodeZone
| encodeUserPassword
| encodeQueryComponent
| encodeFragment.

Definition is_host_mode (mode : encoding) : bool :=
  match mode with encodeHost | encodeZone => true | _ => false end.

Definition ishex (c : ascii) : bool :=
  between "0" c "9" || between "a" c "f" || between "A" c "F".

Definition unhex (c : ascii) : Z :=
  if between "0" c "9" then byte c - byte "0"
  else if between "a" c "f" then byte c - byte "a" + 10
  else if between "A" c "F" then byte c - byte "A" + 10
  else 0.

Definition is_alnum (c : ascii) : bool :=
  between "a" c "z" || between "A" c "Z" || between "0" c "9".

(** [shouldEscape(c, mode)] *)
Definition shouldEscape (c : ascii) (mode : encoding) : bool :=
  if is_alnum c then false
  else if is_host_mode mode
          && (is_byte_in c "!$&()*+,;=:[]<>" || Ascii.eqb c squote || Ascii.eqb c dquote)
  then false
  else if is_byte_in c "-_.~" then false
  else if is_byte_in c "$&+,/:;=?@" then
    match mode with
    | encodePath => Ascii.eqb c "?"
    | encodePathSegment => is_byte_in c "/;,?"
    | encodeUserPassword => is_byte_in c "@/?:"
    | encodeQueryComponent => true
    | encodeFragment => false
    | _ => true
    end
  else
    match mode with
    | encodeFragment => negb (is_byte_in c "!()*")
    | _ => true
    end.

Definition byte_of_hex (h l : ascii) : ascii :=
  ascii_of_nat (Z.to_nat (unhex h * 16 + unhex l)).

(** The first loop of [unescape]: [None] when every escape is well formed
    and allowed in [mode], else the error. *)
Fixpoint unescape_check (s : string) (mode : encoding) : option string :=
  match s with
  | EmptyString => None
  | String "%" rest =>
      match rest with
      | String h (String l rest') =>
          if negb (ishex h && ishex l) then
            Some ("invalid URL escape " +:+ quote (take 3 s))
          else if match mode with encodeHost => true | _ => false end
                  && (unhex h <? 8)
                  && negb (String.eqb (take 3 s) "%25")
          then Some ("invalid URL escape " +:+ quote (take 3 s))
          else if match mode with encodeZone => true | _ => false end
                  && negb (String.eqb (take 3 s) "%25")
                  && negb (Ascii.eqb (byte_of_hex h l) " ")
                  && shouldEscape (byte_of_hex h l) encodeHost
          then Some ("invalid URL escape " +:+ quote (take 3 s))
          else unescape_check rest' mode
      | _ => Some ("invalid URL escape " +:+ quote (take 3 s))
      end
  | String c rest =>
      if is_host_mode mode && (byte c <? 128) && shouldEscape c encodeHost
      then Some ("invalid character " +:+ quote (String c "") +:+ " in host name")
      else unescape_check rest mode
  end.

(** The second loop of [unescape], on a checked string. *)
Fixpoint unescape_decode (s : string) (mode : encoding) : string :=
  match s with
  | EmptyString => EmptyString
  | String "%" (String h (String l rest)) =>
      String (byte_of_hex h l) (unescape_decode rest mode)
  | String "+" rest =>
      String (match mode with encodeQueryComponent => " "%char | _ => "+"%char end)
             (unescape_decode rest mode)
  | String c rest => String c (unescape_decode rest mode)
  end.

Definition unescape (s : string) (mode : encoding) : string + string :=
  match unescape_check s mode with
  | Some msg => inr msg
  | None => inl (unescape_decode s mode)
  end.

Definition upperhex (n : Z) : ascii :=
  match String.get (Z.to_nat n) "0123456789ABCDEF" with
  | Some c => c
  | None => "0"%char
  end.

(** [escape(s, mode)] *)
Fixpoint escape (s : string) (mode : encoding) : string :=
  match s with
  | EmptyString => EmptyString
  | String c rest =>
      if shouldEscape c mode then
        if Ascii.eqb c " " && match mode with encodeQueryComponent => true | _ => false end
        then String "+" (escape rest mode)
        else String "%" (String (upperhex (byte c / 16))
                           (String (upperhex (byte c mod 16)) (escape rest mode)))
      else String c (escape rest mode)
  end.

(** [validEncoded(s, mode)] *)
Fixpoint validEncoded (s : string) (mode : encoding) : bool :=
  match s with
  | EmptyString => true
  | String c rest =>
      if is_byte_in c "!$&()*+,;=:@[]%" || Ascii.eqb c squote then validEncoded rest mode
      else if shouldEscape c mode then false
      else validEncoded rest mode
  end.

(** [stringContainsCTLByte(s)] *)
Fixpoint stringContainsCTLByte (s : string) : bool :=
  match s with
  | EmptyString => false
  | String c rest =>
      if (byte c <? 32) || (byte c =? 127) then true
      else stringContainsCTLByte rest
  end.

(** [getScheme(rawURL)]; [i] is the position of the byte at the head of
    [s] in [rawURL]. *)
Fixpoint getScheme_loop (rawURL s : string) (i : nat)
  : (string * string) + string :=
  match s with
  | EmptyString => inl ("", rawURL)
  | String c rest =>
      if between "a" c "z" || between "A" c "Z" then
        getScheme_loop rawURL rest (S i)
      else if between "0" c "9" || is_byte_in c "+-." then
        match i with
        | O => inl ("", rawURL)
        | _ => getScheme_loop rawURL rest (S i)
        end
      else if Ascii.eqb c ":" then
        match i with
        | O => inr "missing protocol scheme"
        | _ => inl (take i rawURL, drop (S i) rawURL)
        end
      else inl ("", rawURL)
  end.

Definition getScheme (rawURL : string) : (string * string) + string :=
  getScheme_loop rawURL rawURL 0.

(** [validOptionalPort(port)] *)
Fixpoint all_digits (s : string) : bool :=
  match s with
  | EmptyString => true
  | String c rest => between "0" c "9" && all_digits rest
  end.

Definition validOptionalPort (port : string) : bool :=
  match port with
  | EmptyString => true
  | String c rest => Ascii.eqb c ":" && all_digits rest
  end.

(** [validUserinfo(s)] *)
Fixpoint validUserinfo (s : string) : bool :=
  match s with
  | EmptyString => true
  | String c rest =>
      (is_alnum c || is_byte_in c "-._:~!$&()*+,;=%@" || Ascii.eqb c squote)
      && validUserinfo rest
  end.

(** [parseHost(host)] *)
Definition parseHost (host : string) : string + string :=
  if HasPrefix host "[" then
    let i := LastIndexByte host "]" in
    if i <? 0 then inr "missing ']' in host"
    else
      let colonPort := drop (Z.to_nat (i + 1)) host in
      if negb (validOptionalPort colonPort) then
        inr ("invalid port " +:+ quote colonPort +:+ " after host")
      else
        let zone := Index (take (Z.to_nat i) host) "%25" in
        if 0 <=? zone then
          match unescape (take (Z.to_nat zone) host) encodeHost with
          | inr e => inr e
          | inl host1 =>
              match unescape (drop (Z.to_nat zone) (take (Z.to_nat i) host)) encodeZone with
              | inr e => inr e
              | inl host2 =>
                  match unescape (drop (Z.to_nat i) host) encodeHost with
                  | inr e => inr e
                  | inl host3 => inl (host1 +:+ host2 +:+ host3)
                  end
              end
          end
        else unescape host encodeHost
  else
    let i := LastIndexByte host ":" in
    if (0 <=? i) && negb (validOptionalPort (drop (Z.to_nat i) host)) then
      inr ("invalid port " +:+ quote (drop (Z.to_nat i) host) +:+ " after host")
    else unescape host encodeHost.

(** [parseAuthority(authority)] *)
Definition parseAuthority (authority : string)
  : (option Userinfo * string) + string :=
  let i := LastIndexByte authority "@" in
  match parseHost (if i <? 0 then authority else drop (Z.to_nat (i + 1)) authority) with
  | inr e => inr e
  | inl host =>
      if i <? 0 then inl (None, host)
      else
        let userinfo := take (Z.to_nat i) authority in
        if negb (validUserinfo userinfo) then inr "net/url: invalid userinfo"
        else if negb (Contains userinfo ":") then
          match unescape userinfo encodeUserPassword with
          | inr e => inr e
          | inl userinfo => inl (Some (mkUserinfo userinfo "" false), host)
          end
        else
          let '(username, password, _) := CutByte userinfo ":" in
          match unescape username encodeUserPassword with
          | inr e => inr e
          | inl username =>
              match unescape password encodeUserPassword with
              | inr e => inr e
              | inl password => inl (Some (mkUserinfo username password true), host)
              end
          end
  end.

Definition set_RawPath (u : URL) (v : string) : URL :=
  mkURL (Scheme u) (Opaque u) (User u) (Host u) (Path u) v (OmitHost u)
        (ForceQuery u) (RawQuery u) (Fragment u) (RawFragment u).
Definition set_RawFragment (u : URL) (v : string) : URL :=
  mkURL (Scheme u) (Opaque u) (User u) (Host u) (Path u) (RawPath u) (OmitHost u)
        (ForceQuery u) (RawQuery u) (Fragment u) v.
Definition set_Opaque (u : URL) (v : string) : URL :=
  mkURL (Scheme u) v (User u) (Host u) (Path u) (RawPath u) (OmitHost u)
        (ForceQuery u) (RawQuery u) (Fragment u) (RawFragment u).
Definition set_User (u : URL) (v : option Userinfo) : URL :=
  mkURL (Scheme u) (Opaque u) v (Host u) (Path u) (RawPath u) (OmitHost u)
        (ForceQuery u) (RawQuery u) (Fragment u) (RawFragment u).
Definition set_OmitHost (u : URL) (v : bool) : URL :=
  mkURL (Scheme u) (Opaque u) (User u) (Host u) (Path u) (RawPath u) v
        (ForceQuery u) (RawQuery u) (Fragment u) (RawFragment u).
Definition set_ForceQuery (u : URL) (v : bool) : URL :=
  mkURL (Scheme u) (Opaque u) (User u) (Host u) (Path u) (RawPath u) (OmitHost u)
        v (RawQuery u) (Fragment u) (RawFragment u).
Definition set_RawQuery (u : URL) (v : string) : URL :=
  mkURL (Scheme u) (Opaque u) (User u) (Host u) (Path u) (RawPath u) (OmitHost u)
        (ForceQuery u) v (Fragment u) (RawFragment u).

(** [(u *URL).setPath(p)] *)
Definition setPath (u : URL) (p : string) : URL + string :=
  match unescape p encodePath with
  | inr e => inr e
  | inl path =>
      let u := set_Path u path in
      if String.eqb p (escape path encodePath) then inl (set_RawPath u "")
      else inl (set_RawPath u p)
  end.

(** [(u *URL).setFragment(f)] *)
Definition setFragment (u : URL) (f : string) : URL + string :=
  match unescape f encodeFragment with
  | inr e => inr e
  | inl frag =>
      let u := set_Fragment u frag in
      if String.eqb f (escape frag encodeFragment) then inl (set_RawFragment u "")
      else inl (set_RawFragment u f)
  end.

(** [parse(rawURL, viaRequest)] with [viaRequest] false, as [Parse]
    calls it. *)
Definition parse (rawURL : string) : URL + string :=
  if stringContainsCTLByte rawURL then
    inr "net/url: invalid control character in URL"
  else if String.eqb rawURL "*" then inl (set_Path emptyURL "*")
  else
    match getScheme rawURL with
    | inr e => inr e
    | inl (scheme, rest) =>
        let url := set_Scheme emptyURL (ToLower scheme) in
        let '(url, rest) :=
          if HasSuffixByte rest "?" && (CountByte rest "?" =? 1)
          then (set_ForceQuery url true, take (String.length rest - 1) rest)
          else let '(rest, query, _) := CutByte rest "?" in
               (set_RawQuery url query, rest) in
        if negb (HasPrefix rest "/") && negb (String.eqb (Scheme url) "") then
          (* rootless paths are opaque *)
          inl (set_Opaque url rest)
        else if negb (HasPrefix rest "/")
                && (let '(segment, _, _) := CutByte rest "/" in Contains segment ":")
        then inr "first path segment in URL cannot contain colon"
        else
          let authority_step : (URL * string) + string :=
            if (negb (String.eqb (Scheme url) "") || negb (HasPrefix rest "///"))
               && HasPrefix rest "//"
            then
              let authority := drop 2 rest in
              let i := IndexByte authority "/" in
              let '(authority, rest) :=
                if 0 <=? i
                then (take (Z.to_nat i) authority, drop (Z.to_nat i) authority)
                else (authority, "") in
              match parseAuthority authority with
              | inr e => inr e
              | inl (user, host) => inl (set_Host (set_User url user) host, rest)
              end
            else if negb (String.eqb (Scheme url) "") && HasPrefix rest "/"
            then inl (set_OmitHost url true, rest)
            else inl (url, rest) in
          match authority_step with
          | inr e => inr e
          | inl (url, rest) => setPath url rest
          end
    end.

(** [url.Parse(rawURL)] *)
Definition Parse (rawURL : string) : result URL :=
  let '(u, frag, _) := CutByte rawURL "#" in
  match parse u with
  | inr e => Err (url_Error "parse" u e)
  | inl url =>
      if String.eqb frag "" then Ok url
      else
        match setFragment url frag with
        | inr e => Err (url_Error "parse" rawURL e)
        | inl url => Ok url
        end
  end.

(** [(u *URL).EscapedPath()] *)
Definition EscapedPath (u : URL) : string :=
  let fallback :=
    if String.eqb (Path u) "*" then "*" else escape (Path u) encodePath in
  if negb (String.eqb (RawPath u) "") && validEncoded (RawPath u) encodePath then
    match unescape (RawPath u) encodePath with
    | inl p => if String.eqb p (Path u) then RawPath u else fallback
    | inr _ => fallback
    end
  else fallback.

(** [(u *URL).EscapedFragment()] *)
Definition EscapedFragment (u : URL) : string :=
  let fallback := escape (Fragment u) encodeFragment in
  if negb (String.eqb (RawFragment u) "") && validEncoded (RawFragment u) encodeFragment then
    match unescape (RawFragment u) encodeFragment with
    | inl f => if String.eqb f (Fragment u) then RawFragment u else fallback
    | inr _ => fallback
    end
  else fallback.

(** [(u *Userinfo).String()] *)
Definition Userinfo_String (u : Userinfo) : string :=
  escape (username u) encodeUserPassword
  +:+ (if passwordSet u then ":" +:+ escape (password u) encodeUserPassword else "").

Definition has_User (u : URL) : bool :=
  match User u with Some _ => true | None => false end.

(** [(u *URL).String()], one [buf.Write...] after the other. *)
Definition String_ (u : URL) : string :=
  let buf := if negb (String.eqb (Scheme u) "") then Scheme u +:+ ":" else "" in
  let buf :=
    if negb (String.eqb (Opaque u) "") then buf +:+ Opaque u
    else
      let buf :=
        if negb (String.eqb (Scheme u) "") || negb (String.eqb (Host u) "") || has_User u
        then
          if OmitHost u && String.eqb (Host u) "" && negb (has_User u) then buf
          else
            let buf :=
              if negb (String.eqb (Host u) "") || negb (String.eqb (Path u) "") || has_User u
              then buf +:+ "//" else buf in
            let buf :=
              match User u with
              | Some ui => buf +:+ Userinfo_String ui +:+ "@"
              | None => buf
              end in
            if negb (String.eqb (Host u) "") then buf +:+ escape (Host u) encodeHost
            else buf
        else buf in
      let path := EscapedPath u in
      let buf :=
        if negb (String.eqb path "") && negb (HasPrefix path "/")
           && negb (String.eqb (Host u) "")
        then buf +:+ "/" else buf in
      let buf :=
        if String.eqb buf "" then
          let '(segment, _, _) := CutByte path "/" in
          if Contains segment ":" then buf +:+ "./" else buf
        else buf in
      buf +:+ path in
  let buf :=
    if ForceQuery u || negb (String.eqb (RawQuery u) "")
    then buf +:+ "?" +:+ RawQuery u else buf in
  if negb (String.eqb (Fragment u) "") then buf +:+ "#" +:+ EscapedFragment u
  else buf.

End GoUrl.

(* ===================================================================== *)
(** * Vocabulary of the specification *)
(* ===================================================================== *)

(** The telephone-link pattern [tel://...]: the prefix, then at least one
    byte, none of them a line feed. *)
Definition tel_pattern (value : string) : Prop :=
  exists rest, value = "tel://" +:+ rest /\ rest <> ""
               /\ GoStrings.IndexByte rest "010"%char < 0.

(** A start tag, and an [href] attribute. *)
Definition start_tag (name : string) (attrs : list Attribute) : Token :=
  mkToken StartTagToken name attrs.

Definition href (value : string) : Attribute := mkAttribute "" "href" value.

(** The tokenizer has not signalled the end of the document in [tokens]. *)
Definition no_ErrorToken (tokens : list Token) : Prop :=
  Forall (fun t => Type_ t <> ErrorToken) tokens.

(** Two states of [extractLinks] that differ at most in the phone numbers. *)
Definition same_links (st1 st2 : ExtractState) : Prop :=
  inHeader st1 = inHeader st2 /\ baseURL st1 = baseURL st2 /\ links st1 = links st2.

(** ** Concrete addresses and documents *)

(** [http://example.com/a], as [url.Parse] returns it. *)
Definition example_com_a : URL :=
  mkURL "http" "" None "example.com" "/a" "" false false "" "" "".

(** [<a href=value>] *)
Definition anchor (value : string) : Token := start_tag "a" [href value].

(** [<head><base href=":"></head><body><a href="/b">]: the base address
    [":"] has no scheme before its colon, which [url.Parse] rejects. *)
Definition malformed_base_document : list Token :=
  [start_tag "head" []; start_tag "base" [href ":"];
   mkToken EndTagToken "head" []; start_tag "body" []; anchor "/b"].

(** [<head></head><body><base href="http://other.example/dir/"><a href="x">] *)
Definition base_in_body_document : list Token :=
  [start_tag "head" []; mkToken EndTagToken "head" []; start_tag "body" [];
   start_tag "base" [href "http://other.example/dir/"]; anchor "x"].

(** ** The crawl *)

(** What [resolveHref] guarantees of a link that [isWebUrl] accepts. *)
Definition link_ok (l : URL) : Prop := isWebUrl l = true -> Host l <> "".

(** A well-formed frontier entry: a web scheme, a host, no fragment. *)
Definition web_address (u : URL) : Prop :=
  (Scheme u = "http" \/ Scheme u = "https") /\ Host u <> "" /\ Fragment u = "".

(** The frontier invariant as the data model words it: scheme and host not
    empty, fragment empty, for every address ever sent on [urlChannel]. *)
Definition admitted_wellformed (c : Crawl) : Prop :=
  Forall (fun u => Scheme u <> "" /\ Host u <> "" /\ Fragment u = "") (sent c).

(** Idempotence of [resolveHref] under fragment stripping, for every
    resolved address and every second base. *)
Definition resolve_idempotent
    (url_Parse : string -> result URL) (url_String : URL -> string) : Prop :=
  forall base ref a base2,
    resolveHref url_Parse base ref = Ok a ->
    Scheme base2 <> "" -> Host base2 <> "" ->
    resolveHref url_Parse base2 (url_String (set_Fragment a "")) = Ok (set_Fragment a "").

(** The crawlers that hold a result and wait to hand it to the scheduler. *)
Fixpoint count_sending (crawlers : list CrawlerPC) : Z :=
  match crawlers with
  | [] => 0
  | CrawlerReceive :: rest => count_sending rest
  | CrawlerSend _ _ :: rest => 1 + count_sending rest
  end.

(** The crawl is quiescent: nothing in the frontier, the counter at zero,
    every goroutine waiting on a channel. *)
Definition quiescent (c : Crawl) : Prop :=
  urlsCounter c = 0 /\ urlChannel c = []
  /\ Forall (fun pc => pc = CrawlerReceive) (crawlers c)
  /\ scheduler c = AtSelect /\ main_pc c = MainReceive.

(** What holds of every state of a crawl started on [startUrl]. *)
Record crawl_inv (url_String : URL -> string) (startUrl : URL) (c : Crawl) : Prop :=
  mk_crawl_inv {
    inv_sent : exists rest,
      sent c = startUrl :: rest
      /\ Forall web_address rest
      /\ NoDup (map url_String rest)
      /\ (forall key, default false (foundUrls c !! key) = true
                      <-> In key (map url_String rest));
    inv_fifo : sent c = received c ++ urlChannel c;
    inv_counter :
      urlsCounter c
      = GoStrings.len_list (urlChannel c) + count_sending (crawlers c);
    inv_crawlers : forall i url page,
      crawlers c !! i = Some (CrawlerSend url (Ok page)) ->
      Forall link_ok (Links page);
    inv_scheduler :
      match scheduler c with
      | AtSelect => True
      | AtForward result => Forall link_ok (Links result)
      | InLinks rest => Forall link_ok rest
      end
  }.

(** The state a schedule leads to, when it leads to one. *)
Definition the_state (o : option System) : Crawl :=
  match o with
  | Some (Live c) => c
  | _ => startCrawling_init emptyURL
  end.

(** ** Concrete worlds *)

(** A web with one page, at [address], whose body the tokenizer turns into
    [tokens]; every other address fails to load. *)
Definition single_page_Get (address body : string) (s : string) : result string :=
  if String.eqb s address then Ok body
  else Err (http_Error "dial tcp: connection refused").

Definition single_page_Tokenizer (body : string) (tokens : list Token) (b : string)
  : list Token :=
  if String.eqb b body then tokens else [].

(** The index accepts every page. *)
Definition store_ok (_ : IndexedWebPage) : option error := None.

(** The first fetch of a crawl, up to the point where the scheduler is
    about to walk the links of the page: crawler 0 takes the seed and loads
    it, the scheduler receives the result and forwards it to [main]. *)
Definition first_fetch : list Label :=
  [CrawlerTake 0; SchedulerSelect 0; SchedulerForward].

(** Page [/a] of the scenario: links to [/b] and [./c], and a phone number. *)
Definition scenario_body : string :=
  "<a href=/b>b</a><a href=./c>c</a><a href=tel://5551234>call</a>".

Definition scenario_tokens : list Token :=
  [anchor "/b"; mkToken TextToken "b" []; mkToken EndTagToken "a" [];
   anchor "./c"; mkToken TextToken "c" []; mkToken EndTagToken "a" [];
   anchor "tel://5551234"; mkToken TextToken "call" []; mkToken EndTagToken "a" []].

(** The same page with fragments on its links, and [/b] linked twice. *)
Definition scenario_fragment_body : string :=
  "<a href=/b#x>b</a><a href=./c#x>c</a><a href=/b#y>b</a>".

Definition scenario_fragment_tokens : list Token :=
  [anchor "/b#x"; mkToken TextToken "b" []; mkToken EndTagToken "a" [];
   anchor "./c#x"; mkToken TextToken "c" []; mkToken EndTagToken "a" [];
   anchor "/b#y"; mkToken TextToken "b" []; mkToken EndTagToken "a" []].

(** The crawl of [http://example.com/a] in a web where that page has
    [body] and [tokens], run along [schedule]. *)
Definition crawl_example (body : string) (tokens : list Token) (schedule : list Label)
  : option System :=
  run GoUrl.Parse GoUrl.String_
      (single_page_Get "http://example.com/a" body)
      (single_page_Tokenizer body tokens)
      store_ok
      (Live (startCrawling_init example_com_a)) schedule.

(** A page without links, and a page that links to itself. *)
Definition empty_body : string := "<p>nothing here</p>".

Definition empty_tokens : list Token :=
  [start_tag "p" []; mkToken TextToken "nothing here" []; mkToken EndTagToken "p" []].



(** ** Concrete crawls of [http://example.com/a] *)

(** The scenario page, fetched, and its two links visited. *)
Definition scenario_schedule : list Label :=
  first_fetch ++ [SchedulerLink; SchedulerLink; SchedulerLink].

Definition scenario_state : Crawl :=
  the_state (crawl_example scenario_body scenario_tokens scenario_schedule).

(** The page with fragments, fetched, and its three links visited. *)
Definition scenario_fragment_schedule : list Label :=
  first_fetch ++ [SchedulerLink; SchedulerLink; SchedulerLink; SchedulerLink].

Definition scenario_fragment_state : Crawl :=
  the_state (crawl_example scenario_fragment_body scenario_fragment_tokens
                           scenario_fragment_schedule).

(** The page without links, fetched, forwarded and stored. *)
Definition empty_page_schedule : list Label :=
  first_fetch ++ [SchedulerLink; MainStoreResult].

Definition empty_page_state : Crawl :=
  the_state (crawl_example empty_body empty_tokens empty_page_schedule).



(** [http://example.com] (no path) and [https://other.example/q]. *)
Definition example_com : URL :=
  mkURL "http" "" None "example.com" "" "" false false "" "" "".

Definition other_example_q : URL :=
  mkURL "https" "" None "other.example" "/q" "" false false "" "" "".

(** ** Vocabulary for the further properties *)

(** A start tag called [name]. *)
Definition is_start_tag (name : string) (t : Token) : Prop :=
  Type_ t = StartTagToken /\ Data t = name.

(** A [base] start tag whose [href] [url.Parse] rejects. *)
Definition malformed_base (url_Parse : string -> result URL) (t : Token) : Prop :=
  is_start_tag "base" t
  /\ exists raw e, getAttribute t "href" = (true, raw) /\ url_Parse raw = Err e.

(** The schemes of the second [case] of [switch url.Scheme]. *)
Definition network_scheme (s : string) : Prop :=
  s = "http" \/ s = "https" \/ s = "ftp".

(** What one token adds to the links when the base is [base] throughout:
    an [a] start tag with an [href] that is no phone number and resolves
    adds the resolved address without its fragment. *)
Definition token_links (url_Parse : string -> result URL) (base : URL) (t : Token)
  : list URL :=
  match Type_ t with
  | StartTagToken =>
      if String.eqb (Data t) "a" then
        let '(ok, rawUrl) := getHref t in
        if ok then
          if fst (getPhoneNumber rawUrl) then []
          else match resolveHref url_Parse base rawUrl with
               | Ok url => [set_Fragment url ""]
               | Err _ => []
               end
        else []
      else []
  | _ => []
  end.

(** What one token adds to the phone numbers. *)
Definition token_phones (t : Token) : list string :=
  match Type_ t with
  | StartTagToken =>
      if String.eqb (Data t) "a" then
        let '(ok, rawUrl) := getHref t in
        if ok then
          if fst (getPhoneNumber rawUrl) then [rawUrl] else []
        else []
      else []
  | _ => []
  end.

(** The scheduler is about to send a new address on a full [urlChannel]
    while every crawler waits to hand over a result and [main] waits for
    the next page. *)
Definition frontier_jammed (url_String : URL -> string) (c : Crawl) : Prop :=
  (exists url rest,
      scheduler c = InLinks (url :: rest)
      /\ isWebUrl url = true
      /\ default false (foundUrls c !! url_String (set_Fragment url "")) = false)
  /\ urlChannel_cap <= GoStrings.len_list (urlChannel c)
  /\ Forall (fun pc => pc <> CrawlerReceive) (crawlers c)
  /\ main_pc c = MainReceive.

(** [frontier_jammed] as a test. *)
Definition frontier_jammed_b (url_String : URL -> string) (c : Crawl) : bool :=
  match scheduler c with
  | InLinks (url :: _) =>
      isWebUrl url
      && negb (default false (foundUrls c !! url_String (set_Fragment url "")))
  | _ => false
  end
  && (urlChannel_cap <=? GoStrings.len_list (urlChannel c))
  && forallb (fun pc => match pc with CrawlerReceive => false | _ => true end)
             (crawlers c)
  && match main_pc c with MainReceive => true | _ => false end.

(** ** More concrete worlds *)

(** A tokenizer that agrees with [single_page_Tokenizer] on the one body
    that is served and turns every other string into a document with a
    [base] tag whose [href] does not parse. *)
Definition hostile_Tokenizer (body : string) (tokens : list Token) (b : string)
  : list Token :=
  if String.eqb b body then tokens else malformed_base_document.

(** An index that refuses every page. *)
Definition store_refuses (_ : IndexedWebPage) : option error :=
  Some (http_Error "dial tcp 127.0.0.1:9200: connection refused").

(** The links of the scenario page, resolved. *)
Definition example_com_b : URL :=
  mkURL "http" "" None "example.com" "/b" "" false false "" "" "".

Definition example_com_dot_c : URL :=
  mkURL "http" "" None "example.com" "/./c" "" false false "" "" "".

(** The scenario page as [loadPage] returns it. *)
Definition scenario_page : IndexedWebPage :=
  mkIndexedWebPage example_com_a scenario_body
                   [example_com_b; example_com_dot_c] ["tel://5551234"].

(** A state with a full frontier: 10000 addresses wait in [urlChannel],
    each of the five crawlers holds the outcome of a failed fetch, [main]
    waits, and the scheduler is about to send one more address. *)
Definition jammed_example : Crawl :=
  mkCrawl (replicate 10000 example_com_b) ∅ 10005
          (replicate 5 (CrawlerSend example_com_b
                          (Err (http_Error "dial tcp: connection refused"))))
          (InLinks [example_com_dot_c]) MainReceive
          (replicate 10000 example_com_b) [].

(** ** Vocabulary for self-closing tags and for the second fetch *)

(** A self-closing tag, [<name ... />]. *)
Definition self_closing_tag (name : string) (attrs : list Attribute) : Token :=
  mkToken SelfClosingTagToken name attrs.

(** [<a href="tel://5551234"/>] *)
Definition self_closing_tel_document : list Token :=
  [self_closing_tag "a" [href "tel://5551234"]].

(** [<head></head><body><base href="http://other.example/dir/"/><a href="x">] *)
Definition self_closing_base_document : list Token :=
  [start_tag "head" []; mkToken EndTagToken "head" []; start_tag "body" [];
   self_closing_tag "base" [href "http://other.example/dir/"]; anchor "x"].

(** No [base] start tag that follows a [head] start tag has an [href]
    that [url.Parse] rejects. *)
Definition base_tags_parse_after_head
    (url_Parse : string -> result URL) (tokens : list Token) : Prop :=
  forall before b after,
    tokens = before ++ b :: after ->
    Exists (is_start_tag "head") before ->
    ~ malformed_base url_Parse b.

(** [http://other.example/dir/], as [url.Parse] returns it. *)
Definition other_example_dir : URL :=
  mkURL "http" "" None "other.example" "/dir/" "" false false "" "" "".





(* ===================================================================== *)
(** * Properties of the URL resolver *)
(* ===================================================================== *)

Lemma eqb_empty_false (s : string) : s <> "" -> String.eqb s "" = false.
Proof. intros H. apply String.eqb_neq. exact H. Qed.

Lemma eqb_empty_true (s : string) : s = "" -> String.eqb s "" = true.
Proof. intros ->. reflexivity. Qed.

Section ResolverFacts.

Variable url_Parse : string -> result URL.

Lemma resolveHref_missing_base (base : URL) (href : string) :
  Scheme base = "" \/ Host base = "" ->
  resolveHref url_Parse base href = Err (errors_New "Base URL has no scheme / host").
Proof.
  intros H. unfold resolveHref.
  destruct H as [H | H]; rewrite H; simpl.
  - reflexivity.
  - now rewrite orb_true_r.
Qed.

Lemma resolveHref_parsed (base : URL) (href : string) (u : URL) :
  Scheme base <> "" -> Host base <> "" -> url_Parse href = Ok u ->
  resolveHref url_Parse base href =
    match resolve_scheme base u with
    | None => Ok u
    | Some u' => Ok (resolve_path base (resolve_host base u'))
    end.
Proof.
  intros Hs Hh Hp. unfold resolveHref.
  rewrite (eqb_empty_false _ Hs), (eqb_empty_false _ Hh), Hp. reflexivity.
Qed.

Lemma resolveHref_Ok_inv (base : URL) (href : string) (a : URL) :
  resolveHref url_Parse base href = Ok a ->
  Scheme base <> "" /\ Host base <> "" /\
  exists u, url_Parse href = Ok u /\
    match resolve_scheme base u with
    | None => a = u
    | Some u' => a = resolve_path base (resolve_host base u')
    end.
Proof.
  unfold resolveHref.
  destruct (String.eqb (Scheme base) "") eqn:Es; [discriminate |].
  destruct (String.eqb (Host base) "") eqn:Eh; [discriminate |].
  simpl. apply String.eqb_neq in Es, Eh.
  destruct (url_Parse href) as [u | e]; [| discriminate].
  intros H. split; [exact Es |]. split; [exact Eh |].
  exists u. split; [reflexivity |].
  destruct (resolve_scheme base u); congruence.
Qed.

Lemma resolve_path_Scheme base u : Scheme (resolve_path base u) = Scheme u.
Proof.
  unfold resolve_path.
  destruct (String.eqb (Path u) ""); [destruct (String.eqb (Path base) ""); reflexivity |].
  destruct (negb _); [| reflexivity]. destruct (GoPath.Split _). reflexivity.
Qed.

Lemma resolve_path_Host base u : Host (resolve_path base u) = Host u.
Proof.
  unfold resolve_path.
  destruct (String.eqb (Path u) ""); [destruct (String.eqb (Path base) ""); reflexivity |].
  destruct (negb _); [| reflexivity]. destruct (GoPath.Split _). reflexivity.
Qed.

Lemma resolve_host_nonempty base u : Host base <> "" -> Host (resolve_host base u) <> "".
Proof.
  intros Hb. unfold resolve_host.
  destruct (String.eqb (Host u) "") eqn:E; simpl; [exact Hb |].
  now apply String.eqb_neq.
Qed.

(** C3. A reference that parses and carries no scheme, no host and no
    path resolves, against a base with scheme and host, to the base's
    scheme and host and to the base's path, or ["/"] when that is empty;
    a base without scheme or without host makes [resolveHref] fail with
    its missing-base error. *)
Theorem resolveHref_bare_reference (base : URL) (ref : string) (u : URL) :
  url_Parse ref = Ok u ->
  Scheme u = "" -> Host u = "" -> Path u = "" ->
  (Scheme base <> "" -> Host base <> "" ->
   exists a, resolveHref url_Parse base ref = Ok a
             /\ Scheme a = Scheme base
             /\ Host a = Host base
             /\ Path a = (if String.eqb (Path base) "" then "/" else Path base))
  /\ (Scheme base = "" \/ Host base = "" ->
      resolveHref url_Parse base ref = Err (errors_New "Base URL has no scheme / host")).
Proof.
  intros Hp Hs Hh Hpath. split.
  - intros Bs Bh. rewrite (resolveHref_parsed base ref u Bs Bh Hp).
    unfold resolve_scheme. rewrite Hs. simpl.
    eexists. split; [reflexivity |].
    unfold resolve_host, resolve_path; simpl. rewrite Hh; simpl. rewrite Hpath; simpl.
    destruct (String.eqb (Path base) ""); simpl; auto.
  - apply resolveHref_missing_base.
Qed.

End ResolverFacts.

(** The theorem at the base [http://example.com] and the empty reference. *)
Lemma resolveHref_bare_reference_witness :
  (exists a, resolveHref GoUrl.Parse (mkURL "http" "" None "example.com" "" "" false false "" "" "") "" = Ok a
             /\ Scheme a = "http" /\ Host a = "example.com" /\ Path a = "/")
  /\ resolveHref GoUrl.Parse (mkURL "" "" None "" "/a" "" false false "" "" "") ""
     = Err (errors_New "Base URL has no scheme / host").
Proof.
  split.
  - apply (proj1 (resolveHref_bare_reference GoUrl.Parse
             (mkURL "http" "" None "example.com" "" "" false false "" "" "") "" emptyURL
             eq_refl eq_refl eq_refl eq_refl)); discriminate.
  - apply (proj2 (resolveHref_bare_reference GoUrl.Parse
             (mkURL "" "" None "" "/a" "" false false "" "" "") "" emptyURL
             eq_refl eq_refl eq_refl eq_refl)).
    left. reflexivity.
Defined.

(* ===================================================================== *)
(** * Properties of the link extractor *)
(* ===================================================================== *)

Section ExtractorFacts.

Variable url_Parse : string -> result URL.
Variable documentUrl : URL.

Abbreviation do_token := (extract_token url_Parse documentUrl).
Abbreviation do_loop := (extract_loop url_Parse documentUrl).

Lemma extract_loop_app (pre post : list Token) (st : ExtractState) :
  no_ErrorToken pre ->
  do_loop st (pre ++ post) =
    match do_loop st pre with
    | Returns st' => do_loop st' post
    | Panics msg => Panics msg
    end.
Proof.
  intros Hpre. revert st.
  induction Hpre as [| t pre Ht _ IH]; intros st; simpl.
  - reflexivity.
  - destruct (Type_ t) eqn:E; try congruence;
      (destruct (do_token st t); [apply IH | reflexivity]).
Qed.

Lemma extract_loop_cons (t : Token) (rest : list Token) (st : ExtractState) :
  Type_ t <> ErrorToken ->
  do_loop st (t :: rest) =
    match do_token st t with
    | Returns st' => do_loop st' rest
    | Panics msg => Panics msg
    end.
Proof. intros Ht. simpl. destruct (Type_ t); congruence. Qed.

Lemma getPhoneNumber_tel (value : string) :
  tel_pattern value -> getPhoneNumber value = (true, value).
Proof.
  intros (rest & -> & Hne & Hnl).
  apply Z.ltb_lt in Hnl.
  unfold getPhoneNumber, phoneNumberRegex_FindStringSubmatch.
  change (GoStrings.drop 6 ("tel://" +:+ rest)) with rest.
  change (GoStrings.HasPrefix ("tel://" +:+ rest) "tel://") with (String.prefix "" rest).
  rewrite Hnl, (eqb_empty_false _ Hne). destruct rest; reflexivity.
Qed.

Lemma extract_token_tel (st : ExtractState) (t : Token) (value : string) :
  Type_ t = StartTagToken -> Data t = "a" -> getHref t = (true, value) ->
  tel_pattern value ->
  do_token st t = Returns (add_phoneNumber st value).
Proof.
  intros Ht Hd Hh Htel. unfold extract_token, extract_a.
  rewrite Ht, Hd, Hh. simpl. rewrite (getPhoneNumber_tel _ Htel). reflexivity.
Qed.

Lemma extract_token_inHeader (st st' : ExtractState) (t : Token) :
  do_token st t = Returns st' -> inHeader st = true -> inHeader st' = true.
Proof.
  unfold extract_token, extract_base, extract_a. intros H Hin.
  destruct (Type_ t); try (injection H as <-; exact Hin).
  destruct (String.eqb (Data t) "head"); [injection H as <-; reflexivity |].
  destruct (String.eqb (Data t) "base").
  { rewrite Hin in H.
    destruct (getAttribute t "href") as [[] raw]; [| injection H as <-; exact Hin].
    destruct (url_Parse raw); [| discriminate]. injection H as <-. exact Hin. }
  destruct (String.eqb (Data t) "a"); [| injection H as <-; exact Hin].
  destruct (getHref t) as [[] raw]; simpl in H; [| injection H as <-; exact Hin].
  destruct (getPhoneNumber raw) as [[] n]; [injection H as <-; exact Hin |].
  destruct (load (baseURL st)); [| discriminate].
  destruct (resolveHref url_Parse v raw); injection H as <-; exact Hin.
Qed.

Lemma extract_loop_inHeader (tokens : list Token) (st st' : ExtractState) :
  do_loop st tokens = Returns st' -> inHeader st = true -> inHeader st' = true.
Proof.
  revert st. induction tokens as [| t rest IH]; intros st H Hin; simpl in H.
  - injection H as <-. exact Hin.
  - destruct (Type_ t); try (injection H as <-; exact Hin);
      (destruct (do_token st t) as [s |] eqn:Et; [| discriminate];
       exact (IH s H (extract_token_inHeader _ _ _ Et Hin))).
Qed.

Lemma extract_token_head (st : ExtractState) (t : Token) :
  Type_ t = StartTagToken -> Data t = "head" ->
  do_token st t = Returns (set_inHeader st true).
Proof. intros Ht Hd. unfold extract_token. rewrite Ht, Hd. reflexivity. Qed.

Lemma extract_token_base (st : ExtractState) (t : Token) (raw : string) :
  Type_ t = StartTagToken -> Data t = "base" -> inHeader st = true ->
  getAttribute t "href" = (true, raw) ->
  do_token st t =
    match url_Parse raw with
    | Ok u => Returns (set_baseURL st (Some u))
    | Err _ => Panics "invalid memory address or nil pointer dereference"
    end.
Proof.
  intros Ht Hd Hin Hh. unfold extract_token, extract_base.
  rewrite Ht, Hd, Hin, Hh. simpl. destruct (url_Parse raw); reflexivity.
Qed.

End ExtractorFacts.

(** C5, on the code: a [base] tag in the head whose [href] does not parse
    ends [extractLinks] with a nil-pointer panic; nothing is returned and
    the anchor after it is never reached. *)
Theorem malformed_base_panics :
  extractLinks GoUrl.Parse example_com_a malformed_base_document
  = Panics "invalid memory address or nil pointer dereference".
Proof. reflexivity. Qed.

(* ===================================================================== *)
(** * Properties of the crawl *)
(* ===================================================================== *)

Section CrawlFacts.

Variable url_Parse : string -> result URL.
Variable url_String : URL -> string.
Variable http_Get : string -> result string.
Variable html_Tokenizer : string -> list Token.
Variable storeResult : IndexedWebPage -> option error.

Abbreviation do_step := (step url_Parse url_String http_Get html_Tokenizer storeResult).
Abbreviation do_run := (run url_Parse url_String http_Get html_Tokenizer storeResult).

(** ** Links that [extractLinks] returns *)

Lemma isWebUrl_scheme (u : URL) :
  isWebUrl u = true <-> Scheme u = "http" \/ Scheme u = "https".
Proof.
  unfold isWebUrl.
  destruct (String.eqb_spec (Scheme u) "http") as [E1 | E1];
    destruct (String.eqb_spec (Scheme u) "https") as [E2 | E2]; simpl;
    split; auto; try discriminate.
  intros [H | H]; contradiction.
Qed.

Lemma resolve_scheme_None_not_web (base u : URL) :
  resolve_scheme base u = None -> isWebUrl u = false.
Proof.
  unfold resolve_scheme, isWebUrl.
  destruct (String.eqb (Scheme u) ""); [discriminate |].
  destruct (String.eqb (Scheme u) "http"); [discriminate |].
  destruct (String.eqb (Scheme u) "https"); [discriminate |].
  reflexivity.
Qed.

Lemma resolveHref_web_host (base : URL) (ref : string) (a : URL) :
  resolveHref url_Parse base ref = Ok a -> link_ok a.
Proof.
  intros H Hweb.
  destruct (resolveHref_Ok_inv _ _ _ _ H) as (_ & Hh & u & _ & Hcase).
  destruct (resolve_scheme base u) as [u' |] eqn:E.
  - subst a. rewrite resolve_path_Host. now apply resolve_host_nonempty.
  - subst a. rewrite (resolve_scheme_None_not_web _ _ E) in Hweb. discriminate.
Qed.

Lemma link_ok_strip (l : URL) : link_ok l -> link_ok (set_Fragment l "").
Proof. unfold link_ok, isWebUrl. simpl. auto. Qed.

Lemma extract_token_links_ok (documentUrl : URL) (st st' : ExtractState) (t : Token) :
  extract_token url_Parse documentUrl st t = Returns st' ->
  Forall link_ok (links st) -> Forall link_ok (links st').
Proof.
  unfold extract_token, extract_base, extract_a. intros H Hok.
  destruct (Type_ t); try (injection H as <-; exact Hok).
  destruct (String.eqb (Data t) "head"); [injection H as <-; exact Hok |].
  destruct (String.eqb (Data t) "base").
  { destruct (inHeader st); [| injection H as <-; exact Hok].
    destruct (getAttribute t "href") as [[] raw]; [| injection H as <-; exact Hok].
    destruct (url_Parse raw); [| discriminate]. injection H as <-. exact Hok. }
  destruct (String.eqb (Data t) "a"); [| injection H as <-; exact Hok].
  destruct (getHref t) as [[] raw]; simpl in H; [| injection H as <-; exact Hok].
  destruct (getPhoneNumber raw) as [[] n]; [injection H as <-; exact Hok |].
  destruct (load (baseURL st)) as [base |]; [| discriminate].
  destruct (resolveHref url_Parse base raw) as [l |] eqn:Er;
    injection H as <-; [| exact Hok].
  simpl. apply Forall_app. split; [exact Hok |].
  constructor; [| constructor].
  apply link_ok_strip. exact (resolveHref_web_host _ _ _ Er).
Qed.

Lemma extract_loop_links_ok (documentUrl : URL) (tokens : list Token)
    (st st' : ExtractState) :
  extract_loop url_Parse documentUrl st tokens = Returns st' ->
  Forall link_ok (links st) -> Forall link_ok (links st').
Proof.
  revert st. induction tokens as [| t rest IH]; intros st H Hok; simpl in H.
  - injection H as <-. exact Hok.
  - destruct (Type_ t); try (injection H as <-; exact Hok);
      (destruct (extract_token url_Parse documentUrl st t) as [s |] eqn:Et;
       [| discriminate];
       exact (IH s H (extract_token_links_ok _ _ _ _ Et Hok))).
Qed.

Lemma loadPage_links_ok (url : URL) (page : IndexedWebPage) :
  loadPage url_Parse url_String http_Get html_Tokenizer url = Returns (Ok page) ->
  Forall link_ok (Links page).
Proof.
  unfold loadPage, extractLinks.
  destruct (http_Get (url_String url)) as [body |]; [| discriminate].
  destruct (extract_loop url_Parse url (extract_init url) (html_Tokenizer body))
    as [st |] eqn:E; [| discriminate].
  intros H. injection H as <-. simpl.
  apply (extract_loop_links_ok _ _ _ _ E). constructor.
Qed.

(** ** Book-keeping of the crawlers *)

Lemma count_sending_insert_send (l : list CrawlerPC) (i : nat) url r :
  l !! i = Some CrawlerReceive ->
  count_sending (<[i := CrawlerSend url r]> l) = count_sending l + 1.
Proof.
  revert i. induction l as [| pc l IH]; intros i H; [discriminate |].
  destruct i as [| i]; simpl in *.
  - injection H as ->. simpl. lia.
  - destruct pc; simpl; rewrite (IH i H); lia.
Qed.

Lemma count_sending_insert_receive (l : list CrawlerPC) (i : nat) url r :
  l !! i = Some (CrawlerSend url r) ->
  count_sending (<[i := CrawlerReceive]> l) = count_sending l - 1.
Proof.
  revert i. induction l as [| pc l IH]; intros i H; [discriminate |].
  destruct i as [| i]; simpl in *.
  - injection H as ->. simpl. lia.
  - destruct pc; simpl; rewrite (IH i H); lia.
Qed.

Lemma count_sending_idle (l : list CrawlerPC) :
  Forall (fun pc => pc = CrawlerReceive) l -> count_sending l = 0.
Proof. induction 1 as [| pc l -> _ IH]; simpl; auto. Qed.

(** ** The invariant of the crawl *)

Lemma crawl_inv_init (startUrl : URL) :
  crawl_inv url_String startUrl (startCrawling_init startUrl).
Proof.
  constructor.
  - exists []. split; [reflexivity |]. split; [constructor |].
    split; [constructor |].
    intros key. change (foundUrls (startCrawling_init startUrl)) with (∅ : gmap string bool).
    rewrite lookup_empty. simpl. split; [discriminate | contradiction].
  - reflexivity.
  - reflexivity.
  - intros i url page H.
    change (crawlers (startCrawling_init startUrl))
      with (replicate crawler_count CrawlerReceive) in H.
    apply lookup_replicate in H as [H _]. discriminate.
  - exact I.
Qed.

Lemma found_insert (m : gmap string bool) (key k : string) :
  default false (<[key := true]> m !! k) = true
  <-> k = key \/ default false (m !! k) = true.
Proof.
  rewrite lookup_insert. destruct (decide (key = k)) as [-> | Hne]; simpl.
  - split; auto.
  - split; auto. intros [-> | H]; [contradiction | exact H].
Qed.

Lemma crawl_inv_step (startUrl : URL) (c c' : Crawl) (l : Label) :
  crawl_inv url_String startUrl c ->
  do_step c l = Some (Live c') ->
  crawl_inv url_String startUrl c'.
Proof.
  intros [Hsent Hfifo Hcount Hcrawlers Hsched] Hstep.
  destruct l as [i | i | | |]; simpl in Hstep.
  - (* a crawler takes an address *)
    unfold crawler in Hstep.
    destruct (crawlers c !! i) as [[| ? ?] |] eqn:Ei; try discriminate.
    destruct (urlChannel c) as [| url queue] eqn:Eq; [discriminate |].
    destruct (loadPage url_Parse url_String http_Get html_Tokenizer url) as [r |] eqn:El;
      [| discriminate].
    injection Hstep as <-. constructor; simpl.
    + exact Hsent.
    + rewrite Hfifo, <- app_assoc. reflexivity.
    + rewrite Hcount, (count_sending_insert_send _ _ url r Ei).
      unfold GoStrings.len_list. simpl length. lia.
    + intros j url' page Hj.
      apply list_lookup_insert_Some in Hj as [(_ & Heq & _) | (_ & Hj)].
      * injection Heq as <- ->. exact (loadPage_links_ok _ _ El).
      * exact (Hcrawlers _ _ _ Hj).
    + exact Hsched.
  - (* the scheduler receives from a crawler *)
    unfold startCrawling_select in Hstep.
    destruct (scheduler c) eqn:Es; try discriminate.
    destruct (crawlers c !! i) as [[| url r] |] eqn:Ei; try discriminate.
    injection Hstep as <-. constructor; simpl.
    + exact Hsent.
    + exact Hfifo.
    + rewrite Hcount, (count_sending_insert_receive _ _ url r Ei). lia.
    + intros j url' page Hj.
      apply list_lookup_insert_Some in Hj as [(_ & Heq & _) | (_ & Hj)];
        [discriminate | exact (Hcrawlers _ _ _ Hj)].
    + destruct r as [page |]; [exact (Hcrawlers _ _ _ Ei) | exact I].
  - (* the scheduler forwards the page to main *)
    unfold startCrawling_forward in Hstep.
    destruct (scheduler c) eqn:Es; try discriminate.
    destruct (main_pc c); try discriminate.
    injection Hstep as <-. constructor; simpl; assumption.
  - (* the scheduler visits a link *)
    unfold startCrawling_link in Hstep.
    destruct (scheduler c) as [| | [| url rest]] eqn:Es; try discriminate.
    { injection Hstep as <-. constructor; simpl; auto. }
    inversion Hsched as [| ? ? Hurl Hrest]; subst.
    destruct (isWebUrl url) eqn:Eweb;
      [| injection Hstep as <-; constructor; simpl; assumption].
    destruct (default false (foundUrls c !! url_String (set_Fragment url ""))) eqn:Ef;
      simpl in Hstep;
      [injection Hstep as <-; constructor; simpl; assumption |].
    destruct (GoStrings.len_list (urlChannel c) <? urlChannel_cap); [| discriminate].
    injection Hstep as <-.
    destruct Hsent as (enq & Hs & Hweb & Hnd & Hfound).
    constructor; simpl.
    + exists (enq ++ [set_Fragment url ""]). rewrite Hs. split; [reflexivity |].
      split; [| split].
      * apply Forall_app. split; [exact Hweb |]. constructor; [| constructor].
        split; [| split]; simpl.
        -- now apply isWebUrl_scheme.
        -- exact (Hurl Eweb).
        -- reflexivity.
      * rewrite map_app. apply NoDup_app. split; [exact Hnd |]. split.
        -- intros key Hin Hin'. simpl in Hin'.
           apply list_elem_of_In in Hin. apply Hfound in Hin.
           apply list_elem_of_In in Hin'. destruct Hin' as [<- | []].
           rewrite Hin in Ef. discriminate.
        -- simpl. apply NoDup_singleton.
      * intros key. rewrite found_insert, map_app, in_app_iff, Hfound. simpl.
        split; intros [H | H]; auto.
        destruct H as [H | []]; auto.
    + rewrite Hfifo, app_assoc. reflexivity.
    + rewrite Hcount. unfold GoStrings.len_list. rewrite length_app. simpl. lia.
    + exact Hcrawlers.
    + exact Hrest.
  - (* main stores a page *)
    unfold main_loop in Hstep.
    destruct (main_pc c); [discriminate |].
    destruct (storeResult result0); [discriminate |].
    injection Hstep as <-. constructor; simpl; assumption.
Qed.

Lemma crawl_inv_run (startUrl : URL) (schedule : list Label) (c0 c : Crawl) :
  crawl_inv url_String startUrl c0 ->
  do_run (Live c0) schedule = Some (Live c) ->
  crawl_inv url_String startUrl c.
Proof.
  revert c0. induction schedule as [| l rest IH]; intros c0 Hinv Hrun; simpl in Hrun.
  - injection Hrun as <-. exact Hinv.
  - destruct (do_step c0 l) as [[c1 | |] |] eqn:Es; try discriminate.
    + exact (IH c1 (crawl_inv_step _ _ _ _ Hinv Es) Hrun).
    + destruct rest; discriminate.
    + destruct rest; discriminate.
Qed.

Lemma crawl_inv_reachable (startUrl : URL) (schedule : list Label) (c : Crawl) :
  do_run (Live (startCrawling_init startUrl)) schedule = Some (Live c) ->
  crawl_inv url_String startUrl c.
Proof. apply crawl_inv_run, crawl_inv_init. Qed.

Lemma count_sending_nonneg (l : list CrawlerPC) : 0 <= count_sending l.
Proof. induction l as [| [| ? ?] l IH]; simpl; lia. Qed.

Lemma count_sending_zero (l : list CrawlerPC) :
  count_sending l = 0 -> Forall (fun pc => pc = CrawlerReceive) l.
Proof.
  induction l as [| [| ? ?] l IH]; simpl; intros H.
  - constructor.
  - constructor; auto.
  - pose proof (count_sending_nonneg l). lia.
Qed.

Lemma idle_lookup (l : list CrawlerPC) (i : nat) (pc : CrawlerPC) :
  Forall (fun pc => pc = CrawlerReceive) l -> l !! i = Some pc -> pc = CrawlerReceive.
Proof.
  intros Hall. revert i. induction Hall as [| x l Hx _ IH]; intros i H.
  - discriminate.
  - destruct i as [| i]; simpl in H; [congruence | exact (IH i H)].
Qed.

(** In a quiescent state every goroutine waits on a channel that nobody
    will ever send on: no label is enabled. *)
Lemma quiescent_blocked (c : Crawl) (l : Label) : quiescent c -> do_step c l = None.
Proof.
  intros (_ & Hq & Hidle & Hs & Hm).
  destruct l as [i | i | | |]; simpl.
  - unfold crawler. rewrite Hq. destruct (crawlers c !! i) as [[| ? ?] |]; reflexivity.
  - unfold startCrawling_select. rewrite Hs.
    destruct (crawlers c !! i) as [pc |] eqn:E; [| reflexivity].
    rewrite (idle_lookup _ _ _ Hidle E). reflexivity.
  - unfold startCrawling_forward. rewrite Hs. reflexivity.
  - unfold startCrawling_link. rewrite Hs. reflexivity.
  - unfold main_loop. rewrite Hm. reflexivity.
Qed.

(** C1, on the code. Whenever the scheduler is back at its [select] with
    [urlsCounter] at zero and [main] waits for the next result, the
    frontier is empty, no crawler holds a result, and every goroutine is
    blocked: the crawl has reached quiescence and [startCrawling] neither
    returns nor closes [resultChannel]; no step is left to take. *)
Theorem quiescence_is_never_acted_on (startUrl : URL) (schedule : list Label) (c : Crawl) :
  do_run (Live (startCrawling_init startUrl)) schedule = Some (Live c) ->
  urlsCounter c = 0 -> scheduler c = AtSelect -> main_pc c = MainReceive ->
  quiescent c /\ (forall l, do_step c l = None).
Proof.
  intros Hrun Hzero Hs Hm.
  pose proof (crawl_inv_reachable _ _ _ Hrun) as [_ _ Hcount _ _].
  assert (Hq : quiescent c).
  { pose proof (count_sending_nonneg (crawlers c)) as Hn.
    unfold GoStrings.len_list in Hcount.
    assert (Hlen : length (urlChannel c) = 0%nat) by lia.
    assert (Hcs : count_sending (crawlers c) = 0) by lia.
    repeat split; auto.
    - destruct (urlChannel c); [reflexivity | discriminate].
    - now apply count_sending_zero. }
  split; [exact Hq |]. intros l. now apply quiescent_blocked.
Qed.

(** C2, as the code has it. The start address is sent on [urlChannel] as
    [main] parsed it; every address the scheduler sends afterwards has
    scheme [http] or [https], a host and no fragment, and so has every
    address waiting in the frontier that is not the start address. *)
Theorem scheduler_admits_web_addresses (startUrl : URL) (schedule : list Label) (c : Crawl) :
  do_run (Live (startCrawling_init startUrl)) schedule = Some (Live c) ->
  exists rest,
    sent c = startUrl :: rest
    /\ Forall web_address rest
    /\ (forall u, In u (urlChannel c) -> u = startUrl \/ web_address u).
Proof.
  intros Hrun.
  pose proof (crawl_inv_reachable _ _ _ Hrun) as [(rest & Hs & Hweb & _) Hfifo _ _ _].
  exists rest. split; [exact Hs |]. split; [exact Hweb |].
  intros u Hu.
  assert (Hin : In u (sent c)) by (rewrite Hfifo; apply in_or_app; now right).
  rewrite Hs in Hin. destruct Hin as [<- | Hin]; [now left | right].
  rewrite List.Forall_forall in Hweb. now apply Hweb.
Qed.

End CrawlFacts.

(* ===================================================================== *)
(** * Resolving twice *)
(* ===================================================================== *)

Section ResolveTwice.

Variable url_Parse : string -> result URL.
Variable url_String : URL -> string.

Lemma resolve_host_Scheme (base u : URL) : Scheme (resolve_host base u) = Scheme u.
Proof. unfold resolve_host. destruct (String.eqb (Host u) ""); reflexivity. Qed.

Lemma resolve_host_id (base u : URL) : Host u <> "" -> resolve_host base u = u.
Proof. intros H. unfold resolve_host. now rewrite (eqb_empty_false _ H). Qed.

Lemma resolve_path_id (base u : URL) :
  GoStrings.HasPrefix (Path u) "/" = true -> resolve_path base u = u.
Proof.
  intros H. unfold resolve_path. rewrite H. simpl.
  destruct (String.eqb_spec (Path u) "") as [E | E]; [| reflexivity].
  rewrite E in H. discriminate.
Qed.

Lemma resolve_scheme_Some_scheme (base u u' : URL) :
  Scheme base <> "" -> resolve_scheme base u = Some u' ->
  Scheme u' <> "" /\ Host u' = Host u /\ Path u' = Path u.
Proof.
  intros Hb. unfold resolve_scheme.
  destruct (String.eqb_spec (Scheme u) "") as [E | E].
  - intros H. injection H as <-. simpl. auto.
  - destruct (_ || _); [| discriminate]. intros H. injection H as <-. auto.
Qed.

(** C8, as the code has it. Let [a] be an address [resolveHref] returned,
    whose fragment-stripped string parses back to the fragment-stripped
    [a], and whose path starts with a slash when its scheme is [http],
    [https] or [ftp]. Then resolving that string against any base with
    scheme and host returns the fragment-stripped [a]. *)
Theorem resolveHref_idempotent_rooted (base base2 : URL) (ref : string) (a : URL) :
  resolveHref url_Parse base ref = Ok a ->
  Scheme base2 <> "" -> Host base2 <> "" ->
  url_Parse (url_String (set_Fragment a "")) = Ok (set_Fragment a "") ->
  (Scheme a = "http" \/ Scheme a = "https" \/ Scheme a = "ftp" ->
   GoStrings.HasPrefix (Path a) "/" = true) ->
  resolveHref url_Parse base2 (url_String (set_Fragment a "")) = Ok (set_Fragment a "").
Proof.
  intros Hres Hs2 Hh2 Hround Hrooted.
  rewrite (resolveHref_parsed url_Parse base2 _ _ Hs2 Hh2 Hround).
  assert (Hne : Scheme a <> "" /\ (isWebUrl a = true \/ Scheme a = "ftp" -> Host a <> "")).
  { destruct (resolveHref_Ok_inv _ _ _ _ Hres) as (Hs & Hh & u & _ & Hcase).
    destruct (resolve_scheme base u) as [u' |] eqn:E.
    - destruct (resolve_scheme_Some_scheme _ _ _ Hs E) as (Hne & _ & _).
      subst a. rewrite resolve_path_Scheme, resolve_path_Host, resolve_host_Scheme.
      split; [exact Hne |]. intros _. now apply resolve_host_nonempty.
    - subst a. unfold resolve_scheme in E.
      destruct (String.eqb_spec (Scheme u) "") as [E0 | E0]; [discriminate |].
      split; [exact E0 |].
      destruct (String.eqb_spec (Scheme u) "http") as [E1 | E1]; [discriminate |].
      destruct (String.eqb_spec (Scheme u) "https") as [E2 | E2]; [discriminate |].
      destruct (String.eqb_spec (Scheme u) "ftp") as [E3 | E3]; [discriminate |].
      intros [Hw | Hf]; [| contradiction].
      apply isWebUrl_scheme in Hw as [Hw | Hw]; contradiction. }
  destruct Hne as (Hne & Hhost).
  unfold resolve_scheme. simpl.
  rewrite (eqb_empty_false _ Hne).
  destruct (String.eqb_spec (Scheme a) "http") as [E1 | E1];
    [| destruct (String.eqb_spec (Scheme a) "https") as [E2 | E2];
       [| destruct (String.eqb_spec (Scheme a) "ftp") as [E3 | E3]]]; simpl;
    try reflexivity.
  - rewrite resolve_host_id
      by (simpl; apply Hhost; left; apply isWebUrl_scheme; auto).
    rewrite resolve_path_id by (simpl; auto). reflexivity.
  - rewrite resolve_host_id
      by (simpl; apply Hhost; left; apply isWebUrl_scheme; auto).
    rewrite resolve_path_id by (simpl; auto). reflexivity.
  - rewrite resolve_host_id by (simpl; apply Hhost; right; auto).
    rewrite resolve_path_id by (simpl; auto). reflexivity.
Qed.

End ResolveTwice.

(* ===================================================================== *)
(** * The program on concrete inputs *)
(* ===================================================================== *)

(** The quiescence theorem on the crawl of a page without links: after the
    one fetch the counter is zero and nothing can move. *)
Lemma quiescence_is_never_acted_on_witness :
  quiescent empty_page_state
  /\ (forall l,
        step GoUrl.Parse GoUrl.String_
             (single_page_Get "http://example.com/a" empty_body)
             (single_page_Tokenizer empty_body empty_tokens)
             store_ok empty_page_state l = None).
Proof.
  apply (quiescence_is_never_acted_on GoUrl.Parse GoUrl.String_
           (single_page_Get "http://example.com/a" empty_body)
           (single_page_Tokenizer empty_body empty_tokens)
           store_ok example_com_a empty_page_schedule empty_page_state);
    vm_compute; reflexivity.
Defined.

(** C2, the claim on the code: started as [kraul example.com], [main]
    sends on [urlChannel] an address without scheme and without host. *)
Lemma seed_admitted_unchecked :
  exists c, main GoUrl.Parse ["kraul"; "example.com"] = ProcessCrawl c
            /\ ~ admitted_wellformed c.
Proof.
  eexists. split; [reflexivity |].
  intros H. inversion H as [| u rest (Hs & _) _]; subst.
  apply Hs. reflexivity.
Qed.

(** The frontier theorem on the scenario crawl. *)
Lemma scheduler_admits_web_addresses_witness :
  exists rest,
    sent scenario_state = example_com_a :: rest
    /\ Forall web_address rest
    /\ (forall u, In u (urlChannel scenario_state) -> u = example_com_a \/ web_address u).
Proof.
  apply (scheduler_admits_web_addresses GoUrl.Parse GoUrl.String_
           (single_page_Get "http://example.com/a" scenario_body)
           (single_page_Tokenizer scenario_body scenario_tokens)
           store_ok example_com_a scenario_schedule scenario_state).
  vm_compute. reflexivity.
Defined.

(** C4, the claim on the code: the scenario crawl runs, the scheduler
    walks all links of the page and is back at its [select], and the
    addresses it has sent are not [http://example.com/b] and
    [http://example.com/c]. *)
Lemma scenario_enqueues_dot_segment :
  exists c,
    crawl_example scenario_body scenario_tokens scenario_schedule = Some (Live c)
    /\ scheduler c = AtSelect
    /\ map GoUrl.String_ (tail (sent c))
       <> ["http://example.com/b"; "http://example.com/c"].
Proof.
  exists scenario_state. split; [vm_compute; reflexivity |].
  split; [reflexivity |]. vm_compute. discriminate.
Qed.

(** C4, as the code has it. For the scenario page the scheduler sends
    exactly [http://example.com/b] and [http://example.com/./c]: the
    relative path is appended to the directory of the base path as it is.
    The phone number reaches [main] with the page. With fragments on the
    links, and [/b] linked a second time under another fragment, the same
    two addresses are sent, and [foundUrls] holds the two fragment-free
    strings. *)
Theorem scenario_enqueues :
  crawl_example scenario_body scenario_tokens scenario_schedule
  = Some (Live scenario_state)
  /\ scheduler scenario_state = AtSelect
  /\ map GoUrl.String_ (tail (sent scenario_state))
     = ["http://example.com/b"; "http://example.com/./c"]
  /\ (exists page, main_pc scenario_state = MainStore page
                   /\ PhoneNumbers page = ["tel://5551234"])
  /\ crawl_example scenario_fragment_body scenario_fragment_tokens
                   scenario_fragment_schedule
     = Some (Live scenario_fragment_state)
  /\ scheduler scenario_fragment_state = AtSelect
  /\ map GoUrl.String_ (tail (sent scenario_fragment_state))
     = ["http://example.com/b"; "http://example.com/./c"]
  /\ Forall (fun u => Fragment u = "") (tail (sent scenario_fragment_state))
  /\ foundUrls scenario_fragment_state !! "http://example.com/b" = Some true
  /\ foundUrls scenario_fragment_state !! "http://example.com/./c" = Some true
  /\ size (foundUrls scenario_fragment_state) = 2%nat.
Proof.
  split; [vm_compute; reflexivity |].
  split; [reflexivity |].
  split; [reflexivity |].
  split; [eexists; split; reflexivity |].
  split; [vm_compute; reflexivity |].
  split; [reflexivity |].
  split; [reflexivity |].
  split; [repeat constructor |].
  split; [reflexivity |]. split; reflexivity.
Qed.

(** C7, on the code: started as [kraul :], the program prints the parse
    error and returns from [main] before any goroutine is started, which
    ends the process with status 0. *)
Theorem malformed_seed_exits_zero :
  main GoUrl.Parse ["kraul"; ":"]
  = ProcessExit 0 [url_Error "parse" ":" "missing protocol scheme"].
Proof. reflexivity. Qed.

(** C8, the claim on the code: at [http://example.com] the reference [x]
    resolves to an address with path [x]; its string is
    [http://example.com/x], which resolves to path [/x]. *)
Lemma resolve_not_idempotent : ~ resolve_idempotent GoUrl.Parse GoUrl.String_.
Proof.
  intros H.
  specialize (H example_com "x"
                (mkURL "http" "" None "example.com" "x" "" false false "" "" "")
                other_example_q eq_refl).
  assert (Hs : Scheme other_example_q <> "") by discriminate.
  assert (Hh : Host other_example_q <> "") by discriminate.
  specialize (H Hs Hh). vm_compute in H. discriminate H.
Qed.

(** The idempotence theorem at [http://example.com/a], the reference
    [/b#x] and the second base [https://other.example/q]. *)
Lemma resolveHref_idempotent_rooted_witness :
  resolveHref GoUrl.Parse other_example_q "http://example.com/b"
  = Ok (mkURL "http" "" None "example.com" "/b" "" false false "" "" "").
Proof.
  apply (resolveHref_idempotent_rooted GoUrl.Parse GoUrl.String_
           example_com_a other_example_q "/b#x"
           (mkURL "http" "" None "example.com" "/b" "" false false "" "x" "")).
  - reflexivity.
  - discriminate.
  - discriminate.
  - reflexivity.
  - intros _. reflexivity.
Defined.

(* ===================================================================== *)
(** * Further properties: attributes, phone numbers, the resolver *)
(* ===================================================================== *)

(** ** Strings *)

Lemma IndexByte_lower (s : string) (c : ascii) : -1 <= GoStrings.IndexByte s c.
Proof.
  induction s as [| d s IH]; simpl; [lia |].
  destruct (Ascii.eqb d c); [lia |].
  destruct (GoStrings.IndexByte s c <? 0) eqn:E; [lia |].
  apply Z.ltb_ge in E. lia.
Qed.

Lemma LastIndexByte_lower (s : string) (c : ascii) : -1 <= GoStrings.LastIndexByte s c.
Proof.
  induction s as [| d s IH]; simpl; [lia |].
  destruct (0 <=? GoStrings.LastIndexByte s c) eqn:E.
  - apply Z.leb_le in E. lia.
  - destruct (Ascii.eqb d c); lia.
Qed.

Lemma LastIndexByte_absent (s : string) (c : ascii) :
  GoStrings.LastIndexByte s c < 0 -> GoStrings.IndexByte s c < 0.
Proof.
  induction s as [| d s IH]; simpl; [lia |].
  destruct (0 <=? GoStrings.LastIndexByte s c) eqn:E.
  - apply Z.leb_le in E. pose proof (LastIndexByte_lower s c). lia.
  - apply Z.leb_gt in E. destruct (Ascii.eqb d c); [lia |].
    intros _. specialize (IH E).
    destruct (GoStrings.IndexByte s c <? 0) eqn:E'; [lia |].
    apply Z.ltb_ge in E'. lia.
Qed.

Lemma take_drop (n : nat) (s : string) : GoStrings.take n s +:+ GoStrings.drop n s = s.
Proof.
  revert s. induction n as [| n IH]; intros s; simpl; [reflexivity |].
  destruct s as [| c s]; simpl; [reflexivity |].
  change (String c (GoStrings.take n s +:+ GoStrings.drop n s) = String c s).
  f_equal. apply IH.
Qed.

Lemma drop_after_last (s : string) (c : ascii) :
  GoStrings.IndexByte
    (GoStrings.drop (Z.to_nat (GoStrings.LastIndexByte s c + 1)) s) c < 0.
Proof.
  induction s as [| d s IH]; simpl; [lia |].
  pose proof (LastIndexByte_lower s c) as Hl.
  destruct (0 <=? GoStrings.LastIndexByte s c) eqn:E.
  - apply Z.leb_le in E.
    replace (Z.to_nat (GoStrings.LastIndexByte s c + 1 + 1))
      with (S (Z.to_nat (GoStrings.LastIndexByte s c + 1))) by lia.
    exact IH.
  - apply Z.leb_gt in E.
    assert (Habs : GoStrings.IndexByte s c < 0) by (now apply LastIndexByte_absent).
    destruct (Ascii.eqb d c) eqn:Ed; simpl.
    + exact Habs.
    + rewrite Ed. apply Z.ltb_lt in Habs. rewrite Habs. lia.
Qed.

Lemma prefix_decompose (p s : string) :
  String.prefix p s = true -> s = p +:+ GoStrings.drop (String.length p) s.
Proof.
  revert s. induction p as [| c p IH]; intros s H; [reflexivity |].
  destruct s as [| d s]; simpl in H; [discriminate |].
  destruct (ascii_dec c d) as [-> | Hne]; [| discriminate].
  simpl String.length. simpl GoStrings.drop.
  change (String d s = String d (p +:+ GoStrings.drop (String.length p) s)).
  f_equal. now apply IH.
Qed.

Lemma append_nonempty_r (a b : string) : b <> "" -> a +:+ b <> "".
Proof. destruct a; simpl; [auto | discriminate]. Qed.

Lemma rooted_inv (p : string) :
  GoStrings.HasPrefix p "/" = true -> exists p', p = String "/" p'.
Proof.
  intros H. apply prefix_decompose in H. eexists. exact H.
Qed.

Lemma rooted_cons (p : string) : GoStrings.HasPrefix (String "/" p) "/" = true.
Proof. destruct p; reflexivity. Qed.

Lemma Split_rooted (p : string) :
  GoStrings.HasPrefix p "/" = true ->
  GoStrings.HasPrefix (fst (GoPath.Split p)) "/" = true.
Proof.
  intros H. destruct (rooted_inv _ H) as [p' ->]. clear H.
  unfold GoPath.Split. cbn [fst].
  pose proof (LastIndexByte_lower p' "/") as Hl.
  assert (Hi : 0 <= GoStrings.LastIndexByte (String "/" p') "/").
  { cbn [GoStrings.LastIndexByte].
    destruct (0 <=? GoStrings.LastIndexByte p' "/") eqn:E.
    - apply Z.leb_le in E. lia.
    - change (Ascii.eqb "/" "/") with true. cbv iota. lia. }
  replace (Z.to_nat (GoStrings.LastIndexByte (String "/" p') "/" + 1))
    with (S (Z.to_nat (GoStrings.LastIndexByte (String "/" p') "/"))) by lia.
  cbn [GoStrings.take]. apply rooted_cons.
Qed.

Lemma take_through_last (s : string) (c : ascii) :
  0 <= GoStrings.LastIndexByte s c ->
  GoStrings.take (Z.to_nat (GoStrings.LastIndexByte s c + 1)) s
  = GoStrings.take (Z.to_nat (GoStrings.LastIndexByte s c)) s +:+ String c "".
Proof.
  induction s as [| d s IH]; cbn [GoStrings.LastIndexByte]; [lia |].
  pose proof (LastIndexByte_lower s c) as Hl.
  destruct (0 <=? GoStrings.LastIndexByte s c) eqn:E.
  - apply Z.leb_le in E. intros _.
    replace (Z.to_nat (GoStrings.LastIndexByte s c + 1 + 1))
      with (S (Z.to_nat (GoStrings.LastIndexByte s c + 1))) by lia.
    replace (Z.to_nat (GoStrings.LastIndexByte s c + 1))
      with (S (Z.to_nat (GoStrings.LastIndexByte s c))) at 2 by lia.
    cbn [GoStrings.take]. rewrite (IH E).
    replace (Z.to_nat (GoStrings.LastIndexByte s c + 1))
      with (S (Z.to_nat (GoStrings.LastIndexByte s c))) by lia.
    reflexivity.
  - destruct (Ascii.eqb_spec d c) as [-> | Hne]; [| lia].
    intros _. reflexivity.
Qed.

(** The directory part of [path.Split] is empty or ends with a slash. *)
Lemma Split_dir_ends_at_slash (p : string) :
  fst (GoPath.Split p) = "" \/ exists d, fst (GoPath.Split p) = d +:+ "/".
Proof.
  unfold GoPath.Split. cbn [fst].
  pose proof (LastIndexByte_lower p "/") as Hl.
  destruct (Z.eq_dec (GoStrings.LastIndexByte p "/") (-1)) as [E | E].
  - left. rewrite E. reflexivity.
  - right. eexists. apply take_through_last. lia.
Qed.

(** ** [getAttribute] *)

(** X1. [getAttribute] answers with the value of the first attribute
    whose key is [name], later attributes of the same key being ignored;
    when no attribute has the key it answers [(false, "")]. *)
Theorem getAttribute_first_match (t : Token) (name : string) :
  match getAttribute t name with
  | (true, v) =>
      exists before a after,
        Attr t = before ++ a :: after
        /\ Forall (fun b => Key b <> name) before
        /\ Key a = name /\ Val a = v
  | (false, v) => v = "" /\ Forall (fun b => Key b <> name) (Attr t)
  end.
Proof.
  unfold getAttribute. induction (Attr t) as [| a attrs IH]; simpl.
  - split; [reflexivity | constructor].
  - destruct (String.eqb_spec (Key a) name) as [E | E].
    + exists [], a, attrs. repeat split; auto.
    + destruct (getAttribute_loop attrs name) as [[] v].
      * destruct IH as (before & a' & after & -> & Hb & Hk & Hv).
        exists (a :: before), a', after. repeat split; auto.
      * destruct IH as (-> & Hall). split; [reflexivity |]. constructor; auto.
Qed.

(** ** [getPhoneNumber] *)

Lemma getPhoneNumber_cases (value : string) :
  match getPhoneNumber value with
  | (true, n) => tel_pattern value /\ n = value
  | (false, n) => ~ tel_pattern value /\ n = ""
  end.
Proof.
  assert (Hdrop : forall r, GoStrings.drop 6 ("tel://" +:+ r) = r) by reflexivity.
  unfold getPhoneNumber, phoneNumberRegex_FindStringSubmatch.
  destruct (GoStrings.HasPrefix value "tel://") eqn:Ep.
  - apply prefix_decompose in Ep.
    change (String.length "tel://") with 6%nat in Ep.
    destruct (String.eqb_spec (GoStrings.drop 6 value) "") as [Ee | Ee].
    + split; [| reflexivity]. intros (r & Hv & Hne & _).
      rewrite Hv, Hdrop in Ee. contradiction.
    + destruct (GoStrings.IndexByte (GoStrings.drop 6 value) "010" <? 0) eqn:El.
      * apply Z.ltb_lt in El. split; [| reflexivity].
        exists (GoStrings.drop 6 value). auto.
      * apply Z.ltb_ge in El. split; [| reflexivity].
        intros (r & Hv & _ & Hnl). rewrite Hv, Hdrop in El. lia.
  - split; [| reflexivity]. intros (r & Hv & _).
    rewrite Hv in Ep. unfold GoStrings.HasPrefix in Ep.
    change (String.prefix "tel://" ("tel://" +:+ r)) with (String.prefix "" r) in Ep.
    destruct r; discriminate.
Qed.

(** X2. [getPhoneNumber] accepts exactly the values of the form [tel://]
    followed by at least one byte and no line feed, and returns an
    accepted value whole; every other value gives [(false, "")]. *)
Theorem getPhoneNumber_exactly_tel (value : string) :
  match getPhoneNumber value with
  | (true, n) => tel_pattern value /\ n = value
  | (false, n) => ~ tel_pattern value /\ n = ""
  end.
Proof. exact (getPhoneNumber_cases value). Qed.

(** ** [resolveHref] *)

Section ResolverMore.

Variable url_Parse : string -> result URL.

Lemma resolve_scheme_cases (base u : URL) :
  (Scheme u = "" /\ resolve_scheme base u = Some (set_Scheme u (Scheme base)))
  \/ (network_scheme (Scheme u) /\ resolve_scheme base u = Some u)
  \/ (Scheme u <> "" /\ ~ network_scheme (Scheme u) /\ resolve_scheme base u = None).
Proof.
  unfold resolve_scheme, network_scheme.
  destruct (String.eqb_spec (Scheme u) "") as [E0 | E0]; [left; auto | right].
  destruct (String.eqb_spec (Scheme u) "http") as [E1 | E1]; [left; auto |].
  destruct (String.eqb_spec (Scheme u) "https") as [E2 | E2]; [left; auto |].
  destruct (String.eqb_spec (Scheme u) "ftp") as [E3 | E3]; [left; auto |].
  right. simpl. repeat split; auto. intros [H | [H | H]]; contradiction.
Qed.

Lemma resolve_path_nonempty (base u : URL) : Path (resolve_path base u) <> "".
Proof.
  unfold resolve_path.
  destruct (String.eqb_spec (Path u) "") as [E | E].
  - destruct (String.eqb_spec (Path base) "") as [Eb | Eb]; simpl; [discriminate | exact Eb].
  - destruct (negb _); [| exact E].
    destruct (GoPath.Split (Path base)) as [dir file]. simpl.
    now apply append_nonempty_r.
Qed.

Lemma resolve_path_rest (base u : URL) :
  Opaque (resolve_path base u) = Opaque u
  /\ User (resolve_path base u) = User u
  /\ RawQuery (resolve_path base u) = RawQuery u
  /\ Fragment (resolve_path base u) = Fragment u.
Proof.
  unfold resolve_path.
  destruct (String.eqb (Path u) "");
    [destruct (String.eqb (Path base) ""); simpl; auto |].
  destruct (negb _); [| auto]. destruct (GoPath.Split _). simpl. auto.
Qed.

Lemma resolve_host_rest (base u : URL) :
  Opaque (resolve_host base u) = Opaque u
  /\ User (resolve_host base u) = User u
  /\ Path (resolve_host base u) = Path u
  /\ RawQuery (resolve_host base u) = RawQuery u
  /\ Fragment (resolve_host base u) = Fragment u.
Proof. unfold resolve_host. destruct (String.eqb (Host u) ""); simpl; auto. Qed.

(** X3. Against a base with scheme and host, [resolveHref] fails exactly
    when [url.Parse] rejects the reference, and then with the parser's
    error: resolution itself never fails. *)
Theorem resolveHref_fails_as_parser (base : URL) (ref : string) :
  Scheme base <> "" -> Host base <> "" ->
  forall e, resolveHref url_Parse base ref = Err e <-> url_Parse ref = Err e.
Proof.
  intros Hs Hh e. unfold resolveHref.
  rewrite (eqb_empty_false _ Hs), (eqb_empty_false _ Hh). simpl.
  destruct (url_Parse ref) as [u | e']; [| tauto].
  destruct (resolve_scheme base u); split; discriminate.
Qed.

(** X4. An address [resolveHref] returns has a scheme. When the reference
    had no scheme or one of [http], [https], [ftp], the address also has a
    host and a path, and its query, fragment, user and opaque part are
    those of the reference: nothing but scheme, host and path is ever
    taken from the base. *)
Theorem resolveHref_absolute (base : URL) (ref : string) (u a : URL) :
  url_Parse ref = Ok u ->
  resolveHref url_Parse base ref = Ok a ->
  Scheme a <> ""
  /\ (Scheme u = "" \/ network_scheme (Scheme u) ->
      Host a <> "" /\ Path a <> ""
      /\ RawQuery a = RawQuery u /\ Fragment a = Fragment u
      /\ User a = User u /\ Opaque a = Opaque u).
Proof.
  intros Hp Hres.
  destruct (resolveHref_Ok_inv _ _ _ _ Hres) as (Hs & Hh & u' & Hp' & Hcase).
  rewrite Hp in Hp'. injection Hp' as <-.
  destruct (resolve_path_rest base (resolve_host base u)) as (Ho & Hu & Hq & Hf).
  destruct (resolve_host_rest base u) as (Ho' & Hu' & _ & Hq' & Hf').
  destruct (resolve_scheme_cases base u) as [(E & R) | [(E & R) | (E & N & R)]];
    rewrite R in Hcase; subst a.
  - rewrite resolve_path_Scheme, resolve_path_Host.
    split; [unfold resolve_host; destruct (String.eqb _ ""); exact Hs |].
    intros _. split; [now apply resolve_host_nonempty |].
    split; [apply resolve_path_nonempty |].
    destruct (resolve_path_rest base (resolve_host base (set_Scheme u (Scheme base))))
      as (Ho1 & Hu1 & Hq1 & Hf1).
    destruct (resolve_host_rest base (set_Scheme u (Scheme base)))
      as (Ho2 & Hu2 & _ & Hq2 & Hf2).
    rewrite Ho1, Hu1, Hq1, Hf1, Ho2, Hu2, Hq2, Hf2. simpl. auto.
  - rewrite resolve_path_Scheme, resolve_path_Host.
    split.
    + unfold resolve_host. destruct (String.eqb _ ""); simpl;
        destruct E as [E | [E | E]]; rewrite E; discriminate.
    + intros _. split; [now apply resolve_host_nonempty |].
      split; [apply resolve_path_nonempty |].
      rewrite Ho, Hu, Hq, Hf, Ho', Hu', Hq', Hf'. auto.
  - split; [exact E |]. intros [H | H]; contradiction.
Qed.

(** X5. A reference that stands on its own is returned as parsed,
    whatever the base: one with a scheme other than [http], [https],
    [ftp], and one with such a scheme, a host and a path that starts with
    a slash. *)
Theorem resolveHref_ignores_base (base : URL) (ref : string) (u : URL) :
  Scheme base <> "" -> Host base <> "" ->
  url_Parse ref = Ok u ->
  (Scheme u <> "" /\ ~ network_scheme (Scheme u))
  \/ (network_scheme (Scheme u) /\ Host u <> ""
      /\ GoStrings.HasPrefix (Path u) "/" = true) ->
  resolveHref url_Parse base ref = Ok u.
Proof.
  intros Hs Hh Hp Hself.
  rewrite (resolveHref_parsed url_Parse base ref u Hs Hh Hp).
  destruct (resolve_scheme_cases base u) as [(E & R) | [(E & R) | (E & N & R)]];
    rewrite R.
  - destruct Hself as [(H & _) | ([H | [H | H]] & _)];
      rewrite E in H; try contradiction; discriminate.
  - destruct Hself as [(_ & H) | (_ & Hhost & Hpath)]; [contradiction |].
    rewrite resolve_host_id by exact Hhost.
    rewrite resolve_path_id by exact Hpath. reflexivity.
  - reflexivity.
Qed.

(** X6. A reference without scheme, or with [http], [https] or [ftp],
    whose path is not empty and does not start with a slash, gets the path
    [dir ++ path], where [dir] is the base path up to and including its
    last slash: [dir ++ file] is the base path, [file] has no slash, and
    [dir] is empty or ends with a slash, which fixes [dir]. Dot segments
    stay. When the base path starts with a slash, so does the path of the
    result. *)
Theorem resolveHref_relative_path (base : URL) (ref : string) (u a : URL) :
  url_Parse ref = Ok u ->
  Scheme u = "" \/ network_scheme (Scheme u) ->
  Path u <> "" -> GoStrings.HasPrefix (Path u) "/" = false ->
  resolveHref url_Parse base ref = Ok a ->
  exists dir file,
    Path base = dir +:+ file
    /\ GoStrings.IndexByte file "/" < 0
    /\ (dir = "" \/ exists d, dir = d +:+ "/")
    /\ dir = fst (GoPath.Split (Path base))
    /\ Path a = dir +:+ Path u
    /\ (GoStrings.HasPrefix (Path base) "/" = true ->
        GoStrings.HasPrefix (Path a) "/" = true).
Proof.
  intros Hp Hscheme Hne Hrel Hres.
  destruct (resolveHref_Ok_inv _ _ _ _ Hres) as (Hs & Hh & u' & Hp' & Hcase).
  rewrite Hp in Hp'. injection Hp' as <-.
  assert (Hpath : forall v, Path v = Path u ->
            Path (resolve_path base v)
            = fst (GoPath.Split (Path base)) +:+ Path u).
  { intros v Hv. unfold resolve_path. rewrite Hv, (eqb_empty_false _ Hne), Hrel. simpl.
    destruct (GoPath.Split (Path base)). reflexivity. }
  assert (Ha : Path a = fst (GoPath.Split (Path base)) +:+ Path u).
  { destruct (resolve_scheme_cases base u) as [(E & R) | [(E & R) | (E & N & R)]];
      rewrite R in Hcase; subst.
    - apply Hpath. unfold resolve_host. destruct (String.eqb _ ""); reflexivity.
    - apply Hpath. unfold resolve_host. destruct (String.eqb _ ""); reflexivity.
    - destruct Hscheme as [H | H]; contradiction. }
  exists (fst (GoPath.Split (Path base))), (snd (GoPath.Split (Path base))).
  split; [unfold GoPath.Split; simpl; symmetry; apply take_drop |].
  split; [unfold GoPath.Split; simpl; apply drop_after_last |].
  split; [apply Split_dir_ends_at_slash |].
  split; [reflexivity |].
  split; [exact Ha |].
  intros Hroot. rewrite Ha.
  destruct (rooted_inv _ (Split_rooted _ Hroot)) as [d ->]. apply rooted_cons.
Qed.

End ResolverMore.

(** X3 at [http://example.com/a] and the reference [:]. *)
Lemma resolveHref_fails_as_parser_witness :
  resolveHref GoUrl.Parse example_com_a ":" =
    Err (url_Error "parse" ":" "missing protocol scheme").
Proof.
  apply (resolveHref_fails_as_parser GoUrl.Parse example_com_a ":").
  - discriminate.
  - discriminate.
  - reflexivity.
Defined.

(** X4 at [http://example.com/a] and the reference [?page=2#top]. *)
Lemma resolveHref_absolute_witness :
  Scheme (mkURL "http" "" None "example.com" "/a" "" false false "page=2" "top" "") <> ""
  /\ (Scheme (mkURL "" "" None "" "" "" false false "page=2" "top" "") = ""
      \/ network_scheme (Scheme (mkURL "" "" None "" "" "" false false "page=2" "top" "")) ->
      Host (mkURL "http" "" None "example.com" "/a" "" false false "page=2" "top" "") <> ""
      /\ Path (mkURL "http" "" None "example.com" "/a" "" false false "page=2" "top" "") <> ""
      /\ RawQuery (mkURL "http" "" None "example.com" "/a" "" false false "page=2" "top" "")
         = "page=2"
      /\ Fragment (mkURL "http" "" None "example.com" "/a" "" false false "page=2" "top" "")
         = "top"
      /\ User (mkURL "http" "" None "example.com" "/a" "" false false "page=2" "top" "") = None
      /\ Opaque (mkURL "http" "" None "example.com" "/a" "" false false "page=2" "top" "") = "").
Proof.
  apply (resolveHref_absolute GoUrl.Parse example_com_a "?page=2#top"
           (mkURL "" "" None "" "" "" false false "page=2" "top" "")
           (mkURL "http" "" None "example.com" "/a" "" false false "page=2" "top" ""));
    reflexivity.
Defined.

(** X5 at the base [https://other.example/q] and the references
    [mailto:someone@example.com] and [http://example.com/a]. *)
Lemma resolveHref_ignores_base_witness :
  resolveHref GoUrl.Parse other_example_q "mailto:someone@example.com"
  = Ok (mkURL "mailto" "someone@example.com" None "" "" "" false false "" "" "")
  /\ resolveHref GoUrl.Parse other_example_q "http://example.com/a" = Ok example_com_a.
Proof.
  split.
  - apply (resolveHref_ignores_base GoUrl.Parse other_example_q
             "mailto:someone@example.com"); try discriminate; try reflexivity.
    left. split; [discriminate |]. intros [H | [H | H]]; discriminate.
  - apply (resolveHref_ignores_base GoUrl.Parse other_example_q
             "http://example.com/a"); try discriminate; try reflexivity.
    right. split; [left; reflexivity |]. split; [discriminate | reflexivity].
Defined.

(** X6 at [http://example.com/dir/page] and the reference [../up]. *)
Lemma resolveHref_relative_path_witness :
  exists dir file,
    "/dir/page" = dir +:+ file
    /\ GoStrings.IndexByte file "/" < 0
    /\ (dir = "" \/ exists d, dir = d +:+ "/")
    /\ dir = fst (GoPath.Split "/dir/page")
    /\ Path (mkURL "http" "" None "example.com" "/dir/../up" "" false false "" "" "")
       = dir +:+ "../up"
    /\ (GoStrings.HasPrefix "/dir/page" "/" = true ->
        GoStrings.HasPrefix
          (Path (mkURL "http" "" None "example.com" "/dir/../up" "" false false "" "" ""))
          "/" = true).
Proof.
  apply (resolveHref_relative_path GoUrl.Parse
           (mkURL "http" "" None "example.com" "/dir/page" "" false false "" "" "")
           "../up"
           (mkURL "" "" None "" "../up" "" false false "" "" "")
           (mkURL "http" "" None "example.com" "/dir/../up" "" false false "" "" "")).
  - reflexivity.
  - left. reflexivity.
  - discriminate.
  - reflexivity.
  - reflexivity.
Defined.

(* ===================================================================== *)
(** * Further properties of the link extractor *)
(* ===================================================================== *)

Section ExtractorMore.

Variable url_Parse : string -> result URL.
Variable documentUrl : URL.

Abbreviation one_token := (extract_token url_Parse documentUrl).
Abbreviation all_tokens := (extract_loop url_Parse documentUrl).

Lemma resolveHref_has_scheme (base : URL) (ref : string) (a : URL) :
  resolveHref url_Parse base ref = Ok a -> Scheme a <> "".
Proof.
  intros Hres.
  destruct (resolveHref_Ok_inv _ _ _ _ Hres) as (Hs & Hh & u & _ & Hcase).
  destruct (resolve_scheme_cases base u) as [(E & R) | [(E & R) | (E & N & R)]];
    rewrite R in Hcase; subst a.
  - rewrite resolve_path_Scheme, resolve_host_Scheme. exact Hs.
  - rewrite resolve_path_Scheme, resolve_host_Scheme.
    destruct E as [E | [E | E]]; rewrite E; discriminate.
  - exact E.
Qed.

(** What one iteration does to the state, case by case. *)
Lemma extract_token_cases (st : ExtractState) (t : Token) :
  match one_token st t with
  | Returns st' =>
      (st' = st
       \/ (is_start_tag "head" t /\ st' = set_inHeader st true)
       \/ (is_start_tag "base" t /\ inHeader st = true
           /\ exists raw u, getAttribute t "href" = (true, raw)
                            /\ url_Parse raw = Ok u /\ st' = set_baseURL st (Some u))
       \/ (is_start_tag "a" t
           /\ exists raw, getHref t = (true, raw) /\ tel_pattern raw
                          /\ st' = add_phoneNumber st raw)
       \/ (is_start_tag "a" t
           /\ exists raw base u,
               getHref t = (true, raw) /\ ~ tel_pattern raw
               /\ baseURL st = Some base /\ resolveHref url_Parse base raw = Ok u
               /\ st' = add_link st (set_Fragment u "")))
  | Panics msg =>
      msg = "invalid memory address or nil pointer dereference"
      /\ ((malformed_base url_Parse t /\ inHeader st = true) \/ baseURL st = None)
  end.
Proof.
  unfold extract_token, extract_base, extract_a.
  destruct (Type_ t) eqn:Et; try (left; reflexivity).
  destruct (String.eqb_spec (Data t) "head") as [Eh | Eh].
  { right; left. split; [split; assumption | reflexivity]. }
  destruct (String.eqb_spec (Data t) "base") as [Eb | Eb].
  { destruct (inHeader st) eqn:Ein; [| left; reflexivity].
    destruct (getAttribute t "href") as [[] raw] eqn:Ea; [| left; reflexivity].
    destruct (url_Parse raw) as [u | e] eqn:Ep; simpl.
    - right; right; left. split; [split; assumption |]. split; [reflexivity |].
      exists raw, u. auto.
    - split; [reflexivity |]. left. split; [| reflexivity].
      split; [split; assumption |]. exists raw, e. auto. }
  destruct (String.eqb_spec (Data t) "a") as [Ea | Ea]; [| left; reflexivity].
  destruct (getHref t) as [[] raw] eqn:Eh'; simpl; [| left; reflexivity].
  pose proof (getPhoneNumber_cases raw) as Hph.
  destruct (getPhoneNumber raw) as [[] n].
  { destruct Hph as (Htel & ->). right; right; right; left.
    split; [split; assumption |]. exists raw. auto. }
  destruct Hph as (Hnot & _).
  destruct (baseURL st) as [base |] eqn:Ebase; simpl; [| auto].
  destruct (resolveHref url_Parse base raw) as [u | e] eqn:Er; [| left; reflexivity].
  right; right; right; right. split; [split; assumption |].
  exists raw, base, u. auto.
Qed.

Lemma extract_loop_step (st : ExtractState) (t : Token) (rest : list Token) :
  all_tokens st (t :: rest) =
    match Type_ t with
    | ErrorToken => Returns st
    | _ => match one_token st t with
           | Returns st' => all_tokens st' rest
           | Panics msg => Panics msg
           end
    end.
Proof. simpl. destruct (Type_ t); reflexivity. Qed.

(** X7. Every link [extractLinks] returns has a scheme and no fragment,
    and every phone number it returns matches the telephone pattern. *)
Theorem extractLinks_outputs (tokens : list Token) (links : list URL)
    (phones : list string) :
  extractLinks url_Parse documentUrl tokens = Returns (links, phones) ->
  Forall (fun l => Scheme l <> "" /\ Fragment l = "") links
  /\ Forall tel_pattern phones.
Proof.
  unfold extractLinks.
  destruct (all_tokens (extract_init documentUrl) tokens) as [st |] eqn:E;
    [| discriminate].
  intros H. injection H as <- <-.
  assert (Hgen : forall tokens st st',
            all_tokens st tokens = Returns st' ->
            Forall (fun l => Scheme l <> "" /\ Fragment l = "") (links st)
            /\ Forall tel_pattern (phoneNumbers st) ->
            Forall (fun l => Scheme l <> "" /\ Fragment l = "") (links st')
            /\ Forall tel_pattern (phoneNumbers st')).
  { clear. intros tokens. induction tokens as [| t rest IH]; intros st st' H Hst.
    - injection H as <-. exact Hst.
    - rewrite extract_loop_step in H.
      destruct (Type_ t) eqn:Et; try (injection H as <-; exact Hst);
        (pose proof (extract_token_cases st t) as Hc;
         destruct (one_token st t) as [s |]; [| discriminate];
         apply (IH s st' H);
         destruct Hst as (Hl & Hp);
         destruct Hc as [-> | [(_ & ->) | [(_ & _ & raw & u & _ & _ & ->)
                       | [(_ & raw & _ & Htel & ->)
                       | (_ & raw & base & u & _ & _ & _ & Hres & ->)]]]];
         simpl; try (split; assumption);
         [ split; [exact Hl |]; apply Forall_app; split; [exact Hp |];
           constructor; [exact Htel | constructor]
         | split; [| exact Hp]; apply Forall_app; split; [exact Hl |];
           constructor; [| constructor]; simpl; split; [| reflexivity];
           exact (resolveHref_has_scheme _ _ _ Hres) ]). }
  apply (Hgen _ _ _ E). simpl. split; constructor.
Qed.

Lemma extractLinks_panic_inv (tokens : list Token) :
  match extractLinks url_Parse documentUrl tokens with
  | Returns _ => True
  | Panics msg =>
      msg = "invalid memory address or nil pointer dereference"
      /\ exists pre b post,
          tokens = pre ++ b :: post
          /\ malformed_base url_Parse b
          /\ Exists (is_start_tag "head") pre
  end.
Proof.
  assert (Hgen : forall tokens st base,
            baseURL st = Some base ->
            match all_tokens st tokens with
            | Returns _ => True
            | Panics msg =>
                msg = "invalid memory address or nil pointer dereference"
                /\ exists pre b post,
                    tokens = pre ++ b :: post
                    /\ malformed_base url_Parse b
                    /\ (inHeader st = true \/ Exists (is_start_tag "head") pre)
            end).
  { clear. intros tokens. induction tokens as [| t rest IH]; intros st base Hbase.
    - exact I.
    - rewrite extract_loop_step.
      destruct (Type_ t) eqn:Et; try exact I;
        (pose proof (extract_token_cases st t) as Hc;
         destruct (one_token st t) as [s | msg];
         [ assert (Hs : (exists b, baseURL s = Some b)
                        /\ (inHeader s = true ->
                            inHeader st = true \/ is_start_tag "head" t));
           [ destruct Hc as [-> | [(Hh & ->) | [(_ & Hin & raw & u & _ & _ & ->)
                           | [(_ & raw & _ & _ & ->)
                           | (_ & raw & b0 & u & _ & _ & _ & _ & ->)]]]];
             simpl; eauto
           | destruct Hs as ((b & Hb) & Hin);
             specialize (IH s b Hb);
             destruct (all_tokens s rest) as [| msg]; [exact I |];
             destruct IH as (-> & pre & bt & post & -> & Hmal & Hhead);
             split; [reflexivity |];
             exists (t :: pre), bt, post; split; [reflexivity |];
             split; [exact Hmal |];
             destruct Hhead as [Hhead | Hhead];
             [ destruct (Hin Hhead) as [H | H];
               [left; exact H | right; apply Exists_cons_hd; exact H]
             | right; apply Exists_cons_tl; exact Hhead ] ]
         | destruct Hc as (-> & [(Hmal & Hin) | Hnone]);
           [ split; [reflexivity |];
             exists [], t, rest; split; [reflexivity |];
             split; [exact Hmal | left; exact Hin]
           | congruence ] ]). }
  unfold extractLinks.
  specialize (Hgen tokens (extract_init documentUrl) documentUrl eq_refl).
  destruct (all_tokens (extract_init documentUrl) tokens) as [st | msg]; [exact I |].
  destruct Hgen as (-> & pre & b & post & -> & Hmal & [Hin | Hhead]);
    [discriminate Hin |].
  split; [reflexivity |]. exists pre, b, post. auto.
Qed.

(** X8. [extractLinks] panics in one way only: with the nil-pointer
    message, at a [base] start tag whose [href] does not parse and which
    comes after a [head] start tag. A document without such a tag is
    extracted to the end. *)
Theorem extractLinks_panics_only_at_base (tokens : list Token) :
  match extractLinks url_Parse documentUrl tokens with
  | Returns _ => True
  | Panics msg =>
      msg = "invalid memory address or nil pointer dereference"
      /\ exists pre b post,
          tokens = pre ++ b :: post
          /\ malformed_base url_Parse b
          /\ Exists (is_start_tag "head") pre
  end.
Proof. exact (extractLinks_panic_inv tokens). Qed.

Lemma extractLinks_returns (tokens : list Token) :
  Forall (fun t => ~ malformed_base url_Parse t) tokens ->
  exists r, extractLinks url_Parse documentUrl tokens = Returns r.
Proof.
  intros Hall. pose proof (extractLinks_panic_inv tokens) as H.
  destruct (extractLinks url_Parse documentUrl tokens) as [r | msg]; [eauto |].
  destruct H as (_ & pre & b & post & -> & Hmal & _).
  apply Forall_app in Hall as [_ Hall].
  inversion Hall; subst. contradiction.
Qed.

End ExtractorMore.

Section ExtractorShape.

Variable url_Parse : string -> result URL.
Variable documentUrl : URL.

Abbreviation token_step := (extract_token url_Parse documentUrl).
Abbreviation token_loop := (extract_loop url_Parse documentUrl).

Lemma extract_token_fixed_base (st : ExtractState) (t : Token) (base : URL) :
  ~ is_start_tag "base" t -> baseURL st = Some base ->
  exists h,
    token_step st t
    = Returns (mkExtractState h (Some base)
                 (links st ++ token_links url_Parse base t)
                 (phoneNumbers st ++ token_phones t)).
Proof.
  intros Hnb Hbase. destruct st as [h0 b0 ls ps]. simpl in Hbase. subst b0.
  unfold extract_token, extract_a, token_links, token_phones.
  destruct (Type_ t) eqn:Et; simpl; rewrite ?app_nil_r; eauto.
  destruct (String.eqb_spec (Data t) "head") as [Eh | Eh].
  { rewrite Eh. simpl. rewrite !app_nil_r. eauto. }
  destruct (String.eqb_spec (Data t) "base") as [Eb | Eb].
  { exfalso. apply Hnb. split; assumption. }
  destruct (String.eqb (Data t) "a"); [| rewrite !app_nil_r; eauto].
  destruct (getHref t) as [[] raw]; simpl; [| rewrite !app_nil_r; eauto].
  pose proof (getPhoneNumber_cases raw) as Hph.
  destruct (getPhoneNumber raw) as [[] n]; simpl.
  { destruct Hph as (_ & ->). rewrite app_nil_r. eauto. }
  destruct (resolveHref url_Parse base raw); rewrite ?app_nil_r; eauto.
Qed.

(** X9. In a document without [base] start tags every link is resolved
    against the document's own address, and [extractLinks] returns, in
    document order, one link for each [a] start tag whose [href] is no
    phone number and resolves, and one phone number for each whose [href]
    matches the telephone pattern; anchors without [href] or with an
    [href] that does not resolve are skipped. *)
Theorem extractLinks_without_base_tag (tokens : list Token) :
  no_ErrorToken tokens ->
  Forall (fun t => ~ is_start_tag "base" t) tokens ->
  extractLinks url_Parse documentUrl tokens
  = Returns (flat_map (token_links url_Parse documentUrl) tokens,
             flat_map token_phones tokens).
Proof.
  intros Hno Hnb.
  assert (Hgen : forall tokens, no_ErrorToken tokens ->
            Forall (fun t => ~ is_start_tag "base" t) tokens ->
            forall st, baseURL st = Some documentUrl ->
            exists h,
              token_loop st tokens
              = Returns (mkExtractState h (Some documentUrl)
                           (links st ++ flat_map (token_links url_Parse documentUrl) tokens)
                           (phoneNumbers st ++ flat_map token_phones tokens))).
  { clear. intros tokens Hno. induction Hno as [| t rest Ht _ IH]; intros Hnb st Hbase.
    - exists (inHeader st). simpl. rewrite !app_nil_r.
      destruct st; simpl in *; subst; reflexivity.
    - inversion Hnb as [| ? ? Hnt Hrest]; subst.
      rewrite extract_loop_cons by exact Ht.
      destruct (extract_token_fixed_base st t documentUrl Hnt Hbase) as [h Hstep].
      rewrite Hstep.
      destruct (IH Hrest
                  (mkExtractState h (Some documentUrl)
                     (links st ++ token_links url_Parse documentUrl t)
                     (phoneNumbers st ++ token_phones t)) eq_refl) as [h' Hloop].
      exists h'. rewrite Hloop. simpl. now rewrite <- !app_assoc. }
  destruct (Hgen tokens Hno Hnb (extract_init documentUrl) eq_refl) as [h Hloop].
  unfold extractLinks. rewrite Hloop. reflexivity.
Qed.

Lemma extract_token_outside_head (st st' : ExtractState) (t : Token) :
  inHeader st = false -> ~ is_start_tag "head" t ->
  token_step st t = Returns st' -> inHeader st' = false.
Proof.
  intros Hin Hnh H.
  pose proof (extract_token_cases url_Parse documentUrl st t) as Hc.
  rewrite H in Hc.
  destruct Hc as [-> | [(Hh & _) | [(_ & Hin' & _)
                | [(_ & raw & _ & _ & ->) | (_ & raw & b & u & _ & _ & _ & _ & ->)]]]];
    simpl; auto; [contradiction | congruence].
Qed.

(** X10. A [base] start tag that comes before every [head] start tag is
    ignored, whatever its [href]: the document gives what it gives without
    the tag. *)
Theorem base_before_head_is_ignored (pre post : list Token) (b : Token) :
  no_ErrorToken pre ->
  Forall (fun t => ~ is_start_tag "head" t) pre ->
  is_start_tag "base" b ->
  extractLinks url_Parse documentUrl (pre ++ b :: post)
  = extractLinks url_Parse documentUrl (pre ++ post).
Proof.
  intros Hno Hnh (Hbt & Hbd).
  assert (Hgen : forall st, inHeader st = false ->
            token_loop st (pre ++ b :: post) = token_loop st (pre ++ post)).
  { induction Hno as [| t rest Ht _ IH]; intros st Hin.
    - simpl app. rewrite extract_loop_cons by (rewrite Hbt; discriminate).
      unfold extract_token, extract_base. rewrite Hbt, Hbd, Hin. reflexivity.
    - inversion Hnh as [| ? ? Hnt Hrest]; subst.
      simpl app. rewrite !extract_loop_cons by exact Ht.
      destruct (token_step st t) as [s |] eqn:Es; [| reflexivity].
      apply (IH Hrest). exact (extract_token_outside_head _ _ _ Hin Hnt Es). }
  unfold extractLinks. rewrite Hgen by reflexivity. reflexivity.
Qed.

(** X11. [extractLinks] stops at the first [ErrorToken]: what the
    tokenizer would yield after it is never looked at, and what was
    collected before it is returned. *)
Theorem extractLinks_stops_at_ErrorToken (pre post : list Token) (e : Token) :
  Type_ e = ErrorToken ->
  extractLinks url_Parse documentUrl (pre ++ e :: post)
  = extractLinks url_Parse documentUrl pre.
Proof.
  intros He.
  assert (Hgen : forall st, token_loop st (pre ++ e :: post) = token_loop st pre).
  { induction pre as [| t rest IH]; intros st.
    - simpl. rewrite He. reflexivity.
    - simpl app. rewrite !extract_loop_step.
      destruct (Type_ t); try reflexivity;
        (destruct (token_step st t); [apply IH | reflexivity]). }
  unfold extractLinks. now rewrite Hgen.
Qed.

End ExtractorShape.

(* ===================================================================== *)
(** * Further properties of the crawl *)
(* ===================================================================== *)

Section CrawlMore.

Variable url_Parse : string -> result URL.
Variable url_String : URL -> string.
Variable http_Get : string -> result string.
Variable html_Tokenizer : string -> list Token.
Variable storeResult : IndexedWebPage -> option error.

Abbreviation one_step := (step url_Parse url_String http_Get html_Tokenizer storeResult).
Abbreviation many_steps := (run url_Parse url_String http_Get html_Tokenizer storeResult).
Abbreviation load_page := (loadPage url_Parse url_String http_Get html_Tokenizer).

(** An invariant of the steps holds along every schedule. *)
Lemma run_invariant (P : Crawl -> Prop) :
  (forall c l c', P c -> one_step c l = Some (Live c') -> P c') ->
  forall schedule c0 c,
    P c0 -> many_steps (Live c0) schedule = Some (Live c) -> P c.
Proof.
  intros Hstep schedule. induction schedule as [| l rest IH]; intros c0 c H0 Hrun.
  - injection Hrun as <-. exact H0.
  - simpl in Hrun.
    destruct (one_step c0 l) as [[c1 | |] |] eqn:Es; try discriminate.
    + exact (IH c1 c (Hstep _ _ _ H0 Es) Hrun).
    + destruct rest; discriminate.
    + destruct rest; discriminate.
Qed.

(** Every step, label by label. *)
Lemma step_cases (c : Crawl) (l : Label) (c' : Crawl) :
  one_step c l = Some (Live c') ->
  (exists i url queue r,
      l = CrawlerTake i /\ crawlers c !! i = Some CrawlerReceive
      /\ urlChannel c = url :: queue /\ load_page url = Returns r
      /\ c' = mkCrawl queue (foundUrls c) (urlsCounter c)
                      (<[i := CrawlerSend url r]> (crawlers c))
                      (scheduler c) (main_pc c) (sent c) (received c ++ [url]))
  \/ (exists i url r,
      l = SchedulerSelect i /\ scheduler c = AtSelect
      /\ crawlers c !! i = Some (CrawlerSend url r)
      /\ c' = mkCrawl (urlChannel c) (foundUrls c) (urlsCounter c - 1)
                      (<[i := CrawlerReceive]> (crawlers c))
                      (match r with Err _ => AtSelect | Ok result => AtForward result end)
                      (main_pc c) (sent c) (received c))
  \/ (exists result,
      l = SchedulerForward /\ scheduler c = AtForward result /\ main_pc c = MainReceive
      /\ c' = mkCrawl (urlChannel c) (foundUrls c) (urlsCounter c) (crawlers c)
                      (InLinks (Links result)) (MainStore result) (sent c) (received c))
  \/ (exists next,
      l = SchedulerLink
      /\ (scheduler c = InLinks [] /\ next = AtSelect
          \/ exists url rest,
              scheduler c = InLinks (url :: rest) /\ next = InLinks rest
              /\ (isWebUrl url = false
                  \/ default false (foundUrls c !! url_String (set_Fragment url "")) = true))
      /\ c' = mkCrawl (urlChannel c) (foundUrls c) (urlsCounter c) (crawlers c)
                      next (main_pc c) (sent c) (received c))
  \/ (exists url rest,
      l = SchedulerLink /\ scheduler c = InLinks (url :: rest)
      /\ isWebUrl url = true
      /\ default false (foundUrls c !! url_String (set_Fragment url "")) = false
      /\ GoStrings.len_list (urlChannel c) < urlChannel_cap
      /\ c' = mkCrawl (urlChannel c ++ [set_Fragment url ""])
                      (<[url_String (set_Fragment url "") := true]> (foundUrls c))
                      (urlsCounter c + 1) (crawlers c) (InLinks rest) (main_pc c)
                      (sent c ++ [set_Fragment url ""]) (received c))
  \/ (exists result,
      l = MainStoreResult /\ main_pc c = MainStore result /\ storeResult result = None
      /\ c' = mkCrawl (urlChannel c) (foundUrls c) (urlsCounter c) (crawlers c)
                      (scheduler c) MainReceive (sent c) (received c)).
Proof.
  destruct l as [i | i | | |]; simpl; intros H.
  - left. unfold crawler in H.
    destruct (crawlers c !! i) as [[| ? ?] |] eqn:Ei; try discriminate.
    destruct (urlChannel c) as [| url queue] eqn:Eq; [discriminate |].
    destruct (load_page url) as [r |] eqn:El; [| discriminate].
    injection H as <-. exists i, url, queue, r. repeat split; auto.
  - right; left. unfold startCrawling_select in H.
    destruct (scheduler c) eqn:Es; try discriminate.
    destruct (crawlers c !! i) as [[| url r] |] eqn:Ei; try discriminate.
    injection H as <-. exists i, url, r. repeat split; auto.
  - right; right; left. unfold startCrawling_forward in H.
    destruct (scheduler c) eqn:Es; try discriminate.
    destruct (main_pc c) eqn:Em; try discriminate.
    injection H as <-. eexists. repeat split; eauto.
  - unfold startCrawling_link in H.
    destruct (scheduler c) as [| | [| url rest]] eqn:Es; try discriminate.
    { right; right; right; left. injection H as <-. exists AtSelect. repeat split; auto. }
    destruct (isWebUrl url) eqn:Ew.
    + destruct (default false (foundUrls c !! url_String (set_Fragment url ""))) eqn:Ef;
        simpl in H.
      * right; right; right; left. injection H as <-. exists (InLinks rest).
        split; [reflexivity |]. split; [| reflexivity]. right. exists url, rest. repeat split; auto.
      * destruct (GoStrings.len_list (urlChannel c) <? urlChannel_cap) eqn:Ec;
          [| discriminate].
        apply Z.ltb_lt in Ec. right; right; right; right; left.
        injection H as <-. exists url, rest. repeat split; auto.
    + right; right; right; left. injection H as <-. exists (InLinks rest).
      split; [reflexivity |]. split; [| reflexivity]. right. exists url, rest. repeat split; auto.
  - right; right; right; right; right. unfold main_loop in H.
    destruct (main_pc c) eqn:Em; [discriminate |].
    destruct (storeResult result0) eqn:Est; [discriminate |].
    injection H as <-. eexists. repeat split; eauto.
Qed.

Lemma count_sending_le_length (l : list CrawlerPC) :
  count_sending l <= Z.of_nat (length l).
Proof. induction l as [| [| ? ?] l IH]; simpl length; simpl count_sending; lia. Qed.

Lemma crawl_bounds (startUrl : URL) (schedule : list Label) (c : Crawl) :
  many_steps (Live (startCrawling_init startUrl)) schedule = Some (Live c) ->
  length (crawlers c) = crawler_count
  /\ GoStrings.len_list (urlChannel c) <= urlChannel_cap.
Proof.
  apply (run_invariant
           (fun c => length (crawlers c) = crawler_count
                     /\ GoStrings.len_list (urlChannel c) <= urlChannel_cap)).
  - intros c0 l c' (Hlen & Hcap) Hs.
    destruct (step_cases _ _ _ Hs)
      as [(i & url & queue & r & _ & _ & Hq & _ & ->)
         | [(i & url & r & _ & _ & _ & ->)
         | [(result & _ & _ & _ & ->)
         | [(next & _ & _ & ->)
         | [(url & rest & _ & _ & _ & _ & Hroom & ->)
         | (result & _ & _ & _ & ->)]]]]]; simpl;
      rewrite ?length_insert; split; auto.
    + rewrite Hq in Hcap. unfold GoStrings.len_list in *. simpl length in Hcap. lia.
    + unfold GoStrings.len_list in *. rewrite length_app. simpl. lia.
  - split; [reflexivity |]. unfold GoStrings.len_list, urlChannel_cap. simpl. lia.
Qed.

(** X12. At every point of a crawl [urlsCounter] is the number of
    addresses waiting in [urlChannel] plus the number of crawlers that
    hold a fetch outcome the scheduler has not received yet. There are
    always five crawlers and at most 10000 waiting addresses, so the
    counter stays between 0 and 10005. *)
Theorem urlsCounter_counts_outstanding (startUrl : URL) (schedule : list Label) (c : Crawl) :
  many_steps (Live (startCrawling_init startUrl)) schedule = Some (Live c) ->
  urlsCounter c = GoStrings.len_list (urlChannel c) + count_sending (crawlers c)
  /\ length (crawlers c) = 5%nat
  /\ GoStrings.len_list (urlChannel c) <= 10000
  /\ 0 <= urlsCounter c <= 10005.
Proof.
  intros Hrun.
  pose proof (crawl_inv_reachable _ _ _ _ _ _ _ _ Hrun) as [_ _ Hcount _ _].
  destruct (crawl_bounds _ _ _ Hrun) as (Hlen & Hcap).
  pose proof (count_sending_le_length (crawlers c)) as Hle.
  pose proof (count_sending_nonneg (crawlers c)) as Hge.
  unfold crawler_count in Hlen. unfold urlChannel_cap in Hcap.
  split; [exact Hcount |]. split; [exact Hlen |]. split; [exact Hcap |].
  rewrite Hlen in Hle. unfold GoStrings.len_list in *. lia.
Qed.

Lemma found_only_true (startUrl : URL) (schedule : list Label) (c : Crawl) :
  many_steps (Live (startCrawling_init startUrl)) schedule = Some (Live c) ->
  forall key, foundUrls c !! key <> Some false.
Proof.
  apply (run_invariant (fun c => forall key, foundUrls c !! key <> Some false)).
  - intros c0 l c' Hinv Hs.
    destruct (step_cases _ _ _ Hs)
      as [(i & url & queue & r & _ & _ & _ & _ & ->)
         | [(i & url & r & _ & _ & _ & ->)
         | [(result & _ & _ & _ & ->)
         | [(next & _ & _ & ->)
         | [(url & rest & _ & _ & _ & _ & _ & ->)
         | (result & _ & _ & _ & ->)]]]]]; simpl; auto.
    intros key. rewrite lookup_insert.
    destruct (decide (url_String (set_Fragment url "") = key)); [discriminate | auto].
  - intros key. change (foundUrls (startCrawling_init startUrl)) with (∅ : gmap string bool).
    rewrite lookup_empty. discriminate.
Qed.

(** X13. [foundUrls] holds exactly the strings of the addresses the
    scheduler has sent on [urlChannel] after the start address, each with
    the value [true]; no key is ever stored with [false], and the string of
    the start address is a key only if a page linked to it. *)
Theorem foundUrls_are_the_sent_strings (startUrl : URL) (schedule : list Label) (c : Crawl) :
  many_steps (Live (startCrawling_init startUrl)) schedule = Some (Live c) ->
  forall key,
    (foundUrls c !! key = Some true <-> In key (map url_String (tail (sent c))))
    /\ foundUrls c !! key <> Some false.
Proof.
  intros Hrun key.
  pose proof (crawl_inv_reachable _ _ _ _ _ _ _ _ Hrun) as [(rest & Hs & _ & _ & Hf) _ _ _ _].
  pose proof (found_only_true _ _ _ Hrun key) as Hnf.
  split; [| exact Hnf].
  rewrite Hs. simpl tail. rewrite <- Hf.
  destruct (foundUrls c !! key) as [[] |]; simpl; split; congruence.
Qed.

(** X14. Along any schedule, from any state, the history of [urlChannel]
    and the set of keys of [foundUrls] only grow: what was sent stays
    sent, what was received stays received, and a string once marked
    stays marked. *)
Theorem crawl_only_grows (c0 c : Crawl) (schedule : list Label) :
  many_steps (Live c0) schedule = Some (Live c) ->
  (exists more, sent c = sent c0 ++ more)
  /\ (exists more, received c = received c0 ++ more)
  /\ (forall key, foundUrls c0 !! key = Some true -> foundUrls c !! key = Some true).
Proof.
  apply (run_invariant
           (fun c => (exists more, sent c = sent c0 ++ more)
                     /\ (exists more, received c = received c0 ++ more)
                     /\ (forall key, foundUrls c0 !! key = Some true ->
                                     foundUrls c !! key = Some true))).
  - intros c1 l c' ((ms & Hs) & (mr & Hr) & Hf) Hstep.
    destruct (step_cases _ _ _ Hstep)
      as [(i & url & queue & r & _ & _ & _ & _ & ->)
         | [(i & url & r & _ & _ & _ & ->)
         | [(result & _ & _ & _ & ->)
         | [(next & _ & _ & ->)
         | [(url & rest & _ & _ & _ & _ & _ & ->)
         | (result & _ & _ & _ & ->)]]]]]; simpl;
      try (split; [solve [eauto] | split; [solve [eauto] | exact Hf]]).
    + split; [eauto |]. split; [| exact Hf].
      exists (mr ++ [url]). rewrite Hr. now rewrite app_assoc.
    + split; [exists (ms ++ [set_Fragment url ""]); rewrite Hs; now rewrite app_assoc |].
      split; [eauto |].
      intros key Hk. rewrite lookup_insert.
      destruct (decide (url_String (set_Fragment url "") = key)); [reflexivity | auto].
  - split; [exists []; now rewrite app_nil_r |].
    split; [exists []; now rewrite app_nil_r | auto].
Qed.

(** X15. A crawl ends in two ways only: a crawler's [loadPage] panics, or
    [storeResult] reports an error, which ends the process with status 1.
    No schedule ends it with status 0. *)
Theorem crawl_ends_by_panic_or_failed_store (c0 : Crawl) (schedule : list Label) (s : System) :
  many_steps (Live c0) schedule = Some s ->
  match s with
  | Live _ => True
  | Crashed msg => exists url, load_page url = Panics msg
  | Exited status => status = 1 /\ exists page e, storeResult page = Some e
  end.
Proof.
  revert c0. induction schedule as [| l rest IH]; intros c0 Hrun; simpl in Hrun.
  - injection Hrun as <-. exact I.
  - destruct (one_step c0 l) as [[c1 | msg | status] |] eqn:Es; try discriminate.
    + exact (IH c1 Hrun).
    + destruct rest; [| discriminate]. injection Hrun as <-.
      destruct l as [i | i | | |]; simpl in Es.
      * unfold crawler in Es.
        destruct (crawlers c0 !! i) as [[| ? ?] |]; try discriminate.
        destruct (urlChannel c0) as [| url queue]; [discriminate |].
        destruct (load_page url) eqn:El; [discriminate |].
        injection Es as <-. eauto.
      * unfold startCrawling_select in Es.
        destruct (scheduler c0); try discriminate.
        destruct (crawlers c0 !! i) as [[| ? ?] |]; discriminate.
      * unfold startCrawling_forward in Es.
        destruct (scheduler c0); try discriminate. destruct (main_pc c0); discriminate.
      * unfold startCrawling_link in Es.
        destruct (scheduler c0) as [| | [| url rest]]; try discriminate.
        destruct (isWebUrl url); [| discriminate].
        destruct (negb _); [| discriminate].
        destruct (_ <? _); discriminate.
      * unfold main_loop in Es.
        destruct (main_pc c0); [discriminate |]. destruct (storeResult result0); discriminate.
    + destruct rest; [| discriminate]. injection Hrun as <-.
      destruct l as [i | i | | |]; simpl in Es.
      * unfold crawler in Es.
        destruct (crawlers c0 !! i) as [[| ? ?] |]; try discriminate.
        destruct (urlChannel c0) as [| url queue]; [discriminate |].
        destruct (load_page url); discriminate.
      * unfold startCrawling_select in Es.
        destruct (scheduler c0); try discriminate.
        destruct (crawlers c0 !! i) as [[| ? ?] |]; discriminate.
      * unfold startCrawling_forward in Es.
        destruct (scheduler c0); try discriminate. destruct (main_pc c0); discriminate.
      * unfold startCrawling_link in Es.
        destruct (scheduler c0) as [| | [| url rest]]; try discriminate.
        destruct (isWebUrl url); [| discriminate].
        destruct (negb _); [| discriminate].
        destruct (_ <? _); discriminate.
      * unfold main_loop in Es.
        destruct (main_pc c0) as [| page]; [discriminate |].
        destruct (storeResult page) as [e |] eqn:Est; [| discriminate].
        injection Es as <-. split; [reflexivity |]. eauto.
Qed.

(** X16. In a web where no body that [http.Get] serves has a [base]
    start tag with an [href] that does not parse, and with an index that
    accepts every page, no schedule ends the crawl: the process neither
    panics nor exits. *)
Theorem crawl_never_ends_by_itself (c0 : Crawl) (schedule : list Label) (s : System) :
  (forall address body,
      http_Get address = Ok body ->
      Forall (fun t => ~ malformed_base url_Parse t) (html_Tokenizer body)) ->
  (forall page, storeResult page = None) ->
  many_steps (Live c0) schedule = Some s ->
  exists c, s = Live c.
Proof.
  intros Hweb Hstore.
  assert (Hload : forall url msg, load_page url <> Panics msg).
  { intros url msg. unfold loadPage.
    destruct (http_Get (url_String url)) as [body |] eqn:Eg; [| discriminate].
    destruct (extractLinks_returns url_Parse url _ (Hweb _ _ Eg)) as [[ls ps] ->].
    discriminate. }
  revert c0. induction schedule as [| l rest IH]; intros c0 Hrun; simpl in Hrun.
  - injection Hrun as <-. eauto.
  - destruct (one_step c0 l) as [[c1 | msg | status] |] eqn:Es; try discriminate.
    + exact (IH c1 Hrun).
    + exfalso. destruct l as [i | i | | |]; simpl in Es.
      * unfold crawler in Es.
        destruct (crawlers c0 !! i) as [[| ? ?] |]; try discriminate.
        destruct (urlChannel c0) as [| url queue]; [discriminate |].
        destruct (load_page url) eqn:El; [discriminate |].
        exact (Hload _ _ El).
      * unfold startCrawling_select in Es.
        destruct (scheduler c0); try discriminate.
        destruct (crawlers c0 !! i) as [[| ? ?] |]; discriminate.
      * unfold startCrawling_forward in Es.
        destruct (scheduler c0); try discriminate. destruct (main_pc c0); discriminate.
      * unfold startCrawling_link in Es.
        destruct (scheduler c0) as [| | [| url rest']]; try discriminate.
        destruct (isWebUrl url); [| discriminate].
        destruct (negb _); [| discriminate].
        destruct (_ <? _); discriminate.
      * unfold main_loop in Es.
        destruct (main_pc c0); [discriminate |]. destruct (storeResult result0); discriminate.
    + exfalso. destruct l as [i | i | | |]; simpl in Es.
      * unfold crawler in Es.
        destruct (crawlers c0 !! i) as [[| ? ?] |]; try discriminate.
        destruct (urlChannel c0) as [| url queue]; [discriminate |].
        destruct (load_page url); discriminate.
      * unfold startCrawling_select in Es.
        destruct (scheduler c0); try discriminate.
        destruct (crawlers c0 !! i) as [[| ? ?] |]; discriminate.
      * unfold startCrawling_forward in Es.
        destruct (scheduler c0); try discriminate. destruct (main_pc c0); discriminate.
      * unfold startCrawling_link in Es.
        destruct (scheduler c0) as [| | [| url rest']]; try discriminate.
        destruct (isWebUrl url); [| discriminate].
        destruct (negb _); [| discriminate].
        destruct (_ <? _); discriminate.
      * unfold main_loop in Es.
        destruct (main_pc c0) as [| page]; [discriminate |].
        rewrite Hstore in Es. discriminate.
Qed.

Lemma crawlers_sending_or_idle (l : list CrawlerPC) :
  (exists i url r, l !! i = Some (CrawlerSend url r))
  \/ Forall (fun pc => pc = CrawlerReceive) l.
Proof.
  induction l as [| [| url r] l IH].
  - right. constructor.
  - destruct IH as [(i & url & r & H) | H].
    + left. exists (S i), url, r. exact H.
    + right. constructor; auto.
  - left. exists 0%nat, url, r. reflexivity.
Qed.

(** X17. As long as [urlChannel] is not full, a crawl that is not
    quiescent can move: some goroutine has a step to take. Below the
    capacity of the frontier the only states in which everything waits are
    the quiescent ones. *)
Theorem crawl_moves_unless_quiescent (startUrl : URL) (schedule : list Label) (c : Crawl) :
  many_steps (Live (startCrawling_init startUrl)) schedule = Some (Live c) ->
  GoStrings.len_list (urlChannel c) < urlChannel_cap ->
  quiescent c \/ exists l s, one_step c l = Some s.
Proof.
  intros Hrun Hroom.
  pose proof (crawl_inv_reachable _ _ _ _ _ _ _ _ Hrun) as [_ _ Hcount _ _].
  destruct (crawl_bounds _ _ _ Hrun) as (Hlen & _).
  destruct (main_pc c) as [| page] eqn:Em.
  2:{ right. exists MainStoreResult. simpl. unfold main_loop. rewrite Em.
      destruct (storeResult page); eauto. }
  destruct (scheduler c) as [| result | [| url rest]] eqn:Es.
  - destruct (crawlers_sending_or_idle (crawlers c)) as [(i & url & r & Hi) | Hidle].
    + right. exists (SchedulerSelect i). simpl. unfold startCrawling_select.
      rewrite Es, Hi. eauto.
    + destruct (urlChannel c) as [| url queue] eqn:Eq.
      * left. unfold quiescent. rewrite Hcount, Eq, (count_sending_idle _ Hidle).
        repeat split; auto.
      * right. exists (CrawlerTake 0). simpl. unfold crawler. rewrite Eq.
        destruct (crawlers c) as [| pc pcs] eqn:Ec; [discriminate Hlen |].
        inversion Hidle as [| ? ? Hpc _]; subst. simpl.
        destruct (load_page url); eauto.
  - right. exists SchedulerForward. simpl. unfold startCrawling_forward.
    rewrite Es, Em. eauto.
  - right. exists SchedulerLink. simpl. unfold startCrawling_link. rewrite Es. eauto.
  - right. exists SchedulerLink. simpl. unfold startCrawling_link. rewrite Es.
    apply Z.ltb_lt in Hroom. rewrite Hroom.
    destruct (isWebUrl url); [| eauto]. destruct (negb _); eauto.
Qed.

Lemma jammed_lookup (l : list CrawlerPC) (i : nat) :
  Forall (fun pc => pc <> CrawlerReceive) l -> l !! i <> Some CrawlerReceive.
Proof.
  intros Hall. revert i. induction Hall as [| pc l Hpc _ IH]; intros i.
  - discriminate.
  - destruct i as [| i]; simpl; [congruence | apply IH].
Qed.

(** X18. When the scheduler is about to send a new address while
    [urlChannel] holds 10000 addresses, every crawler holds a fetch
    outcome and [main] waits for the next page, no goroutine can move:
    the scheduler's send blocks, the crawlers' sends find no receiver, and
    nobody is left to take an address out of the frontier. *)
Theorem full_frontier_deadlocks (c : Crawl) :
  frontier_jammed url_String c -> forall l, one_step c l = None.
Proof.
  intros ((url & rest & Hs & Hweb & Hnew) & Hfull & Hbusy & Hmain) l.
  destruct l as [i | i | | |]; simpl.
  - unfold crawler. pose proof (jammed_lookup _ i Hbusy) as Hi.
    destruct (crawlers c !! i) as [[| ? ?] |]; [congruence | reflexivity ..].
  - unfold startCrawling_select. rewrite Hs. reflexivity.
  - unfold startCrawling_forward. rewrite Hs. reflexivity.
  - unfold startCrawling_link. rewrite Hs, Hweb, Hnew. simpl.
    apply Z.ltb_ge in Hfull. rewrite Hfull. reflexivity.
  - unfold main_loop. rewrite Hmain. reflexivity.
Qed.

Lemma loadPage_Ok_url (url : URL) (page : IndexedWebPage) :
  load_page url = Returns (Ok page) -> page_URL page = url.
Proof.
  unfold loadPage.
  destruct (http_Get (url_String url)) as [body |]; [| discriminate].
  destruct (extractLinks url_Parse url (html_Tokenizer body)) as [[ls ps] |];
    [| discriminate].
  intros H. injection H as <-. reflexivity.
Qed.

Lemma crawl_pages_inv (startUrl : URL) (schedule : list Label) (c : Crawl) :
  many_steps (Live (startCrawling_init startUrl)) schedule = Some (Live c) ->
  (forall i url r, crawlers c !! i = Some (CrawlerSend url r) ->
                   In url (received c) /\ load_page url = Returns r)
  /\ (forall page, scheduler c = AtForward page ->
                   In (page_URL page) (received c)
                   /\ load_page (page_URL page) = Returns (Ok page))
  /\ (forall page, main_pc c = MainStore page ->
                   In (page_URL page) (received c)
                   /\ load_page (page_URL page) = Returns (Ok page)).
Proof.
  apply (run_invariant
           (fun c =>
              (forall i url r, crawlers c !! i = Some (CrawlerSend url r) ->
                               In url (received c) /\ load_page url = Returns r)
              /\ (forall page, scheduler c = AtForward page ->
                               In (page_URL page) (received c)
                               /\ load_page (page_URL page) = Returns (Ok page))
              /\ (forall page, main_pc c = MainStore page ->
                               In (page_URL page) (received c)
                               /\ load_page (page_URL page) = Returns (Ok page)))).
  - intros c0 l c' (Hc & Hs & Hm) Hstep.
    destruct (step_cases _ _ _ Hstep)
      as [(i & url & queue & r & _ & _ & _ & Hload & ->)
         | [(i & url & r & _ & Hsel & Hi & ->)
         | [(result & _ & Hfw & _ & ->)
         | [(next & _ & Hnext & ->)
         | [(url & rest & _ & Hl & _ & _ & _ & ->)
         | (result & _ & _ & _ & ->)]]]]]; simpl.
    + split; [| split].
      * intros j url' r' Hj.
        apply list_lookup_insert_Some in Hj as [(_ & Heq & _) | (_ & Hj)].
        -- injection Heq as <- <-. split; [apply in_or_app; right; now left | exact Hload].
        -- destruct (Hc _ _ _ Hj) as (Hin & Hl). split; [apply in_or_app; now left | exact Hl].
      * intros page Hp. destruct (Hs _ Hp) as (Hin & Hl).
        split; [apply in_or_app; now left | exact Hl].
      * intros page Hp. destruct (Hm _ Hp) as (Hin & Hl).
        split; [apply in_or_app; now left | exact Hl].
    + split; [| split; [| exact Hm]].
      * intros j url' r' Hj.
        apply list_lookup_insert_Some in Hj as [(_ & Heq & _) | (_ & Hj)];
          [discriminate | exact (Hc _ _ _ Hj)].
      * intros page Hp. destruct r as [result |]; [| discriminate].
        injection Hp as ->. destruct (Hc _ _ _ Hi) as (Hin & Hl).
        rewrite (loadPage_Ok_url _ _ Hl). auto.
    + split; [exact Hc |]. split; [discriminate |].
      intros page Hp. injection Hp as <-. exact (Hs _ Hfw).
    + split; [exact Hc |]. split; [| exact Hm].
      intros page Hp.
      destruct Hnext as [(_ & ->) | (url & rest & _ & -> & _)]; discriminate.
    + split; [exact Hc |]. split; [discriminate | exact Hm].
    + split; [exact Hc |]. split; [exact Hs | discriminate].
  - split; [| split]; try discriminate.
    intros i url r H.
    change (crawlers (startCrawling_init startUrl))
      with (replicate crawler_count CrawlerReceive) in H.
    apply lookup_replicate in H as [H _]. discriminate.
Qed.

(** X19. Every page [main] hands to [storeResult] is what [loadPage]
    returned for the address the page carries, and that address was sent
    on [urlChannel] and received by a crawler: nothing is stored that was
    not fetched from the frontier. *)
Theorem stored_page_was_fetched (startUrl : URL) (schedule : list Label) (c : Crawl)
    (page : IndexedWebPage) :
  many_steps (Live (startCrawling_init startUrl)) schedule = Some (Live c) ->
  main_pc c = MainStore page ->
  load_page (page_URL page) = Returns (Ok page)
  /\ In (page_URL page) (received c)
  /\ In (page_URL page) (sent c).
Proof.
  intros Hrun Hm.
  destruct (crawl_pages_inv _ _ _ Hrun) as (_ & _ & Hmain).
  destruct (Hmain _ Hm) as (Hin & Hl).
  pose proof (crawl_inv_reachable _ _ _ _ _ _ _ _ Hrun) as [_ Hfifo _ _ _].
  split; [exact Hl |]. split; [exact Hin |].
  rewrite Hfifo. apply in_or_app. now left.
Qed.

(** X20. Started with an argument that parses, the program fetches that
    address first: whatever the schedule, the addresses the crawlers have
    received so far are none, or begin with the start address exactly as
    [url.Parse] returned it. *)
Theorem seed_is_fetched_first (os_Args : list string) (c0 c : Crawl)
    (schedule : list Label) :
  main url_Parse os_Args = ProcessCrawl c0 ->
  many_steps (Live c0) schedule = Some (Live c) ->
  exists arg seed,
    os_Args !! 1%nat = Some arg /\ url_Parse arg = Ok seed
    /\ (received c = [] \/ exists more, received c = seed :: more).
Proof.
  unfold main. intros Hmain Hrun.
  destruct (os_Args !! 1%nat) as [arg |]; [| discriminate].
  destruct (url_Parse arg) as [seed |] eqn:Ep; [| discriminate].
  injection Hmain as <-.
  pose proof (crawl_inv_reachable _ _ _ _ _ _ _ _ Hrun) as [(rest & Hs & _) Hfifo _ _ _].
  exists arg, seed. split; [reflexivity |]. split; [exact Ep |].
  destruct (received c) as [| u more]; [now left | right].
  rewrite Hs in Hfifo. simpl in Hfifo. injection Hfifo as -> _. eauto.
Qed.

End CrawlMore.

(* ===================================================================== *)
(** * The further properties on concrete inputs *)
(* ===================================================================== *)

(** X7 on the scenario page. *)
Lemma extractLinks_outputs_witness :
  Forall (fun l => Scheme l <> "" /\ Fragment l = "") [example_com_b; example_com_dot_c]
  /\ Forall tel_pattern ["tel://5551234"].
Proof.
  apply (extractLinks_outputs GoUrl.Parse example_com_a scenario_tokens).
  reflexivity.
Defined.

(** X9 on the scenario page. *)
Lemma extractLinks_without_base_tag_witness :
  extractLinks GoUrl.Parse example_com_a scenario_tokens
  = Returns (flat_map (token_links GoUrl.Parse example_com_a) scenario_tokens,
             flat_map token_phones scenario_tokens).
Proof.
  apply (extractLinks_without_base_tag GoUrl.Parse example_com_a scenario_tokens).
  - repeat constructor; discriminate.
  - repeat constructor; intros [_ H]; discriminate H.
Defined.

(** X10 on [<body><base href=":"><a href="/b">]. *)
Lemma base_before_head_is_ignored_witness :
  extractLinks GoUrl.Parse example_com_a
    ([start_tag "body" []] ++ start_tag "base" [href ":"] :: [anchor "/b"])
  = extractLinks GoUrl.Parse example_com_a ([start_tag "body" []] ++ [anchor "/b"]).
Proof.
  apply (base_before_head_is_ignored GoUrl.Parse example_com_a
           [start_tag "body" []] [anchor "/b"] (start_tag "base" [href ":"])).
  - repeat constructor; discriminate.
  - repeat constructor; intros [_ H]; discriminate H.
  - split; reflexivity.
Defined.

(** X11 on a document that breaks off after its first anchor. *)
Lemma extractLinks_stops_at_ErrorToken_witness :
  extractLinks GoUrl.Parse example_com_a
    ([anchor "/b"] ++ mkToken ErrorToken "" [] :: [anchor "./c"])
  = extractLinks GoUrl.Parse example_com_a [anchor "/b"].
Proof.
  apply (extractLinks_stops_at_ErrorToken GoUrl.Parse example_com_a
           [anchor "/b"] [anchor "./c"] (mkToken ErrorToken "" [])).
  reflexivity.
Defined.

(** X12 on the scenario crawl. *)
Lemma urlsCounter_counts_outstanding_witness :
  urlsCounter scenario_state
  = GoStrings.len_list (urlChannel scenario_state) + count_sending (crawlers scenario_state)
  /\ length (crawlers scenario_state) = 5%nat
  /\ GoStrings.len_list (urlChannel scenario_state) <= 10000
  /\ 0 <= urlsCounter scenario_state <= 10005.
Proof.
  apply (urlsCounter_counts_outstanding GoUrl.Parse GoUrl.String_
           (single_page_Get "http://example.com/a" scenario_body)
           (single_page_Tokenizer scenario_body scenario_tokens)
           store_ok example_com_a scenario_schedule scenario_state).
  vm_compute. reflexivity.
Defined.

(** X13 on the scenario crawl, at the string of its first link. *)
Lemma foundUrls_are_the_sent_strings_witness :
  (foundUrls scenario_state !! "http://example.com/b" = Some true
   <-> In "http://example.com/b" (map GoUrl.String_ (tail (sent scenario_state))))
  /\ foundUrls scenario_state !! "http://example.com/b" <> Some false.
Proof.
  apply (foundUrls_are_the_sent_strings GoUrl.Parse GoUrl.String_
           (single_page_Get "http://example.com/a" scenario_body)
           (single_page_Tokenizer scenario_body scenario_tokens)
           store_ok example_com_a scenario_schedule scenario_state).
  vm_compute. reflexivity.
Defined.

(** X14 on the scenario crawl, from its start. *)
Lemma crawl_only_grows_witness :
  (exists more, sent scenario_state = sent (startCrawling_init example_com_a) ++ more)
  /\ (exists more,
        received scenario_state = received (startCrawling_init example_com_a) ++ more)
  /\ (forall key,
        foundUrls (startCrawling_init example_com_a) !! key = Some true ->
        foundUrls scenario_state !! key = Some true).
Proof.
  apply (crawl_only_grows GoUrl.Parse GoUrl.String_
           (single_page_Get "http://example.com/a" scenario_body)
           (single_page_Tokenizer scenario_body scenario_tokens)
           store_ok (startCrawling_init example_com_a) scenario_state scenario_schedule).
  vm_compute. reflexivity.
Defined.

(** X15 on the scenario web with an index that refuses the page. *)
Lemma crawl_ends_by_panic_or_failed_store_witness :
  1 = 1 /\ exists page e, store_refuses page = Some e.
Proof.
  apply (crawl_ends_by_panic_or_failed_store GoUrl.Parse GoUrl.String_
           (single_page_Get "http://example.com/a" scenario_body)
           (single_page_Tokenizer scenario_body scenario_tokens)
           store_refuses (startCrawling_init example_com_a)
           (first_fetch ++ [MainStoreResult]) (Exited 1)).
  vm_compute. reflexivity.
Defined.

(** X16 on the scenario crawl, with a tokenizer that finds a [base] tag
    with an unparseable [href] in every body but the one that is served. *)
Lemma crawl_never_ends_by_itself_witness :
  exists c, Live scenario_state = Live c.
Proof.
  apply (crawl_never_ends_by_itself GoUrl.Parse GoUrl.String_
           (single_page_Get "http://example.com/a" scenario_body)
           (hostile_Tokenizer scenario_body scenario_tokens)
           store_ok (startCrawling_init example_com_a) scenario_schedule
           (Live scenario_state)).
  - intros address body Hget. unfold single_page_Get in Hget.
    destruct (String.eqb address "http://example.com/a"); [| discriminate Hget].
    injection Hget as <-. unfold hostile_Tokenizer. rewrite String.eqb_refl.
    repeat constructor; intros [[_ H] _]; discriminate H.
  - reflexivity.
  - vm_compute. reflexivity.
Defined.

(** X17 on the scenario crawl, where two addresses wait in the frontier. *)
Lemma crawl_moves_unless_quiescent_witness :
  quiescent scenario_state
  \/ exists l s,
      step GoUrl.Parse GoUrl.String_
           (single_page_Get "http://example.com/a" scenario_body)
           (single_page_Tokenizer scenario_body scenario_tokens)
           store_ok scenario_state l = Some s.
Proof.
  apply (crawl_moves_unless_quiescent GoUrl.Parse GoUrl.String_
           (single_page_Get "http://example.com/a" scenario_body)
           (single_page_Tokenizer scenario_body scenario_tokens)
           store_ok example_com_a scenario_schedule scenario_state).
  - vm_compute. reflexivity.
  - vm_compute. reflexivity.
Defined.

Lemma frontier_jammed_b_true (url_String : URL -> string) (c : Crawl) :
  frontier_jammed_b url_String c = true -> frontier_jammed url_String c.
Proof.
  unfold frontier_jammed_b, frontier_jammed. intros H.
  apply andb_true_iff in H as [H Hm]. apply andb_true_iff in H as [H Hc].
  apply andb_true_iff in H as [Hs Hf].
  destruct (scheduler c) as [| | [| url rest]]; try discriminate.
  apply andb_true_iff in Hs as [Hw Hn]. apply negb_true_iff in Hn.
  split; [exists url, rest; auto |].
  split; [now apply Z.leb_le |].
  split.
  - clear -Hc. induction (crawlers c) as [| pc l IH]; [constructor |].
    simpl in Hc. apply andb_true_iff in Hc as [Hpc Hl].
    constructor; [destruct pc; [discriminate Hpc | discriminate] | auto].
  - destruct (main_pc c); [reflexivity | discriminate].
Qed.

(** X18 on a state with a full frontier: the scheduler can neither send
    the next address nor receive from a crawler, and no crawler can take
    an address. *)
Lemma full_frontier_deadlocks_witness :
  step GoUrl.Parse GoUrl.String_
       (single_page_Get "http://example.com/a" scenario_body)
       (single_page_Tokenizer scenario_body scenario_tokens)
       store_ok jammed_example SchedulerLink = None
  /\ step GoUrl.Parse GoUrl.String_
          (single_page_Get "http://example.com/a" scenario_body)
          (single_page_Tokenizer scenario_body scenario_tokens)
          store_ok jammed_example (SchedulerSelect 0) = None
  /\ step GoUrl.Parse GoUrl.String_
          (single_page_Get "http://example.com/a" scenario_body)
          (single_page_Tokenizer scenario_body scenario_tokens)
          store_ok jammed_example (CrawlerTake 0) = None.
Proof.
  assert (Hjam : frontier_jammed GoUrl.String_ jammed_example)
    by (apply frontier_jammed_b_true; vm_compute; reflexivity).
  split; [| split];
    apply (full_frontier_deadlocks GoUrl.Parse GoUrl.String_
             (single_page_Get "http://example.com/a" scenario_body)
             (single_page_Tokenizer scenario_body scenario_tokens)
             store_ok jammed_example Hjam).
Defined.

(** X19 on the scenario crawl, where [main] holds the scenario page. *)
Lemma stored_page_was_fetched_witness :
  loadPage GoUrl.Parse GoUrl.String_
           (single_page_Get "http://example.com/a" scenario_body)
           (single_page_Tokenizer scenario_body scenario_tokens)
           (page_URL scenario_page)
  = Returns (Ok scenario_page)
  /\ In (page_URL scenario_page) (received scenario_state)
  /\ In (page_URL scenario_page) (sent scenario_state).
Proof.
  apply (stored_page_was_fetched GoUrl.Parse GoUrl.String_
           (single_page_Get "http://example.com/a" scenario_body)
           (single_page_Tokenizer scenario_body scenario_tokens)
           store_ok example_com_a scenario_schedule scenario_state scenario_page).
  - vm_compute. reflexivity.
  - vm_compute. reflexivity.
Defined.

(** X20 on [kraul http://example.com/a] and the scenario crawl. *)
Lemma seed_is_fetched_first_witness :
  exists arg seed,
    ["kraul"; "http://example.com/a"] !! 1%nat = Some arg
    /\ GoUrl.Parse arg = Ok seed
    /\ (received scenario_state = [] \/ exists more, received scenario_state = seed :: more).
Proof.
  apply (seed_is_fetched_first GoUrl.Parse GoUrl.String_
           (single_page_Get "http://example.com/a" scenario_body)
           (single_page_Tokenizer scenario_body scenario_tokens)
           store_ok ["kraul"; "http://example.com/a"]
           (startCrawling_init example_com_a) scenario_state scenario_schedule).
  - reflexivity.
  - vm_compute. reflexivity.
Defined.

(* ===================================================================== *)
(** * Telephone anchors and the base tag, over whole documents *)
(* ===================================================================== *)

Section ExtractorClaims.

Variable url_Parse : string -> result URL.
Variable documentUrl : URL.

Abbreviation at_token := (extract_token url_Parse documentUrl).
Abbreviation over_tokens := (extract_loop url_Parse documentUrl).

(** Two states with the same flag, base and links go through a token
    alike, and the token adds the same phone numbers to both. *)
Lemma extract_token_frame (st1 st2 : ExtractState) (t : Token) :
  same_links st1 st2 ->
  match at_token st1 t, at_token st2 t with
  | Returns a, Returns b =>
      same_links a b
      /\ exists more, phoneNumbers a = phoneNumbers st1 ++ more
                      /\ phoneNumbers b = phoneNumbers st2 ++ more
  | Panics m1, Panics m2 => m1 = m2
  | _, _ => False
  end.
Proof.
  intros Hs. pose proof Hs as (Hh & Hb & Hl).
  assert (Hsame : same_links st1 st2
                  /\ exists more, phoneNumbers st1 = phoneNumbers st1 ++ more
                                  /\ phoneNumbers st2 = phoneNumbers st2 ++ more)
    by (split; [exact Hs | exists []; now rewrite !app_nil_r]).
  unfold extract_token, extract_base, extract_a.
  destruct (Type_ t); try exact Hsame.
  destruct (String.eqb (Data t) "head").
  { split; [repeat split; assumption | exists []; simpl; now rewrite !app_nil_r]. }
  destruct (String.eqb (Data t) "base").
  { rewrite <- Hh. destruct (inHeader st1) eqn:E1; [| exact Hsame].
    destruct (getAttribute t "href") as [[] raw]; [| exact Hsame].
    destruct (url_Parse raw); simpl; [| reflexivity].
    split; [repeat split; simpl; congruence | exists []; now rewrite !app_nil_r]. }
  destruct (String.eqb (Data t) "a"); [| exact Hsame].
  destruct (getHref t) as [[] raw]; simpl; [| exact Hsame].
  destruct (getPhoneNumber raw) as [[] n].
  { split; [repeat split; assumption | exists [n]; split; reflexivity]. }
  rewrite <- Hb. destruct (load (baseURL st1)); [| reflexivity].
  destruct (resolveHref url_Parse v raw); [| exact Hsame].
  split; [repeat split; simpl; congruence | exists []; simpl; now rewrite !app_nil_r].
Qed.

Lemma extract_loop_frame (tokens : list Token) (st1 st2 : ExtractState) :
  same_links st1 st2 ->
  match over_tokens st1 tokens, over_tokens st2 tokens with
  | Returns a, Returns b =>
      same_links a b
      /\ exists more, phoneNumbers a = phoneNumbers st1 ++ more
                      /\ phoneNumbers b = phoneNumbers st2 ++ more
  | Panics m1, Panics m2 => m1 = m2
  | _, _ => False
  end.
Proof.
  revert st1 st2. induction tokens as [| t rest IH]; intros st1 st2 Hs.
  - simpl. split; [exact Hs | exists []; now rewrite !app_nil_r].
  - rewrite !extract_loop_step.
    pose proof (extract_token_frame st1 st2 t Hs) as Ht.
    destruct (Type_ t);
      try (split; [exact Hs | exists []; now rewrite !app_nil_r]);
      (destruct (at_token st1 t) as [a |], (at_token st2 t) as [b |];
       try contradiction; [| exact Ht];
       destruct Ht as (Hab & m1 & Ha & Hb);
       specialize (IH a b Hab);
       destruct (over_tokens a rest) as [a' |], (over_tokens b rest) as [b' |];
       try contradiction; [| exact IH];
       destruct IH as (Hab' & m2 & Ha' & Hb');
       split; [exact Hab' |];
       exists (m1 ++ m2); rewrite Ha', Hb', Ha, Hb, <- !app_assoc;
       split; reflexivity).
Qed.

Lemma extract_loop_fixed_base (tokens : list Token) :
  no_ErrorToken tokens ->
  Forall (fun t => ~ is_start_tag "base" t) tokens ->
  forall st base,
    baseURL st = Some base ->
    exists h,
      over_tokens st tokens
      = Returns (mkExtractState h (Some base)
                   (links st ++ flat_map (token_links url_Parse base) tokens)
                   (phoneNumbers st ++ flat_map token_phones tokens)).
Proof.
  intros Hno. induction Hno as [| t rest Ht _ IH]; intros Hnb st base Hbase.
  - exists (inHeader st). simpl. rewrite !app_nil_r.
    destruct st; simpl in *; subst; reflexivity.
  - inversion Hnb as [| ? ? Hnt Hrest]; subst.
    rewrite extract_loop_cons by exact Ht.
    destruct (extract_token_fixed_base url_Parse documentUrl st t base Hnt Hbase)
      as [h Hstep].
    rewrite Hstep.
    destruct (IH Hrest
                (mkExtractState h (Some base)
                   (links st ++ token_links url_Parse base t)
                   (phoneNumbers st ++ token_phones t)) base eq_refl) as [h' Hloop].
    exists h'. rewrite Hloop. simpl. now rewrite <- !app_assoc.
Qed.

Lemma base_tags_parse_if_all_do (tokens : list Token) :
  Forall (fun t => ~ malformed_base url_Parse t) tokens ->
  base_tags_parse_after_head url_Parse tokens.
Proof.
  intros Hall before b after -> _.
  apply Forall_app in Hall as [_ H]. inversion H; assumption.
Qed.

(** C6. An [a] start tag whose [href] matches the telephone pattern adds
    exactly that value to the phone numbers and nothing else: [url.Parse]
    and [resolveHref] are not consulted, whatever they would answer. Over
    a whole document: when the document without the anchor is extracted to
    the end, so is the document with it, with the same links and with the
    value among the phone numbers, right after those of the tokens before
    the anchor; when the one panics, so does the other. A document in
    which no [base] start tag after a [head] start tag has an [href] that
    does not parse is extracted to the end, so there the value is
    returned. *)
Theorem tel_anchor_recorded (pre post : list Token) (t : Token) (value : string) :
  Type_ t = StartTagToken -> Data t = "a" -> getHref t = (true, value) ->
  tel_pattern value -> no_ErrorToken pre ->
  (forall st, at_token st t = Returns (add_phoneNumber st value))
  /\ match extractLinks url_Parse documentUrl (pre ++ post) with
     | Returns (links, phones) =>
         exists links0 before after,
           extractLinks url_Parse documentUrl pre = Returns (links0, before)
           /\ phones = before ++ after
           /\ extractLinks url_Parse documentUrl (pre ++ t :: post)
              = Returns (links, before ++ value :: after)
     | Panics msg =>
         extractLinks url_Parse documentUrl (pre ++ t :: post) = Panics msg
     end
  /\ (base_tags_parse_after_head url_Parse (pre ++ t :: post) ->
      exists links links0 before after,
        extractLinks url_Parse documentUrl pre = Returns (links0, before)
        /\ extractLinks url_Parse documentUrl (pre ++ post)
           = Returns (links, before ++ after)
        /\ extractLinks url_Parse documentUrl (pre ++ t :: post)
           = Returns (links, before ++ value :: after)).
Proof.
  intros Ht Hd Hh Htel Hpre.
  assert (Hstep : forall st, at_token st t = Returns (add_phoneNumber st value))
    by (intros st; now apply extract_token_tel).
  assert (Hdoc : match extractLinks url_Parse documentUrl (pre ++ post) with
                 | Returns (links, phones) =>
                     exists links0 before after,
                       extractLinks url_Parse documentUrl pre = Returns (links0, before)
                       /\ phones = before ++ after
                       /\ extractLinks url_Parse documentUrl (pre ++ t :: post)
                          = Returns (links, before ++ value :: after)
                 | Panics msg =>
                     extractLinks url_Parse documentUrl (pre ++ t :: post) = Panics msg
                 end).
  { unfold extractLinks. rewrite !extract_loop_app by exact Hpre.
    destruct (over_tokens (extract_init documentUrl) pre) as [st |]; [| reflexivity].
    rewrite extract_loop_cons by (rewrite Ht; discriminate).
    rewrite Hstep.
    assert (Hs : same_links (add_phoneNumber st value) st) by (repeat split).
    pose proof (extract_loop_frame post _ _ Hs) as Hrel.
    destruct (over_tokens (add_phoneNumber st value) post) as [a |],
             (over_tokens st post) as [b |]; try contradiction.
    - destruct Hrel as ((_ & _ & Hl) & more & Ha & Hb).
      exists (links st), (phoneNumbers st), more.
      split; [reflexivity |]. split; [exact Hb |].
      rewrite Hl, Ha. simpl. now rewrite <- app_assoc.
    - now rewrite Hrel. }
  split; [exact Hstep |]. split; [exact Hdoc |].
  intros Hok.
  pose proof (extractLinks_panic_inv url_Parse documentUrl (pre ++ t :: post)) as Hp.
  destruct (extractLinks url_Parse documentUrl (pre ++ post)) as [[links phones] | msg].
  - destruct Hdoc as (links0 & before & after & H0 & -> & H1).
    exists links, links0, before, after. auto.
  - rewrite Hdoc in Hp. destruct Hp as (_ & p & b & q & Heq & Hmal & Hhead).
    destruct (Hok p b q Heq Hhead Hmal).
Qed.

(** C10. Once a [head] start tag has been read the in-head flag stays
    set, whatever follows; so a later [base] start tag with an [href] that
    parses, wherever it stands, makes the parsed address the base. The
    rest of the document is processed with it: up to the next [base] start
    tag, or to the end of the document, every anchor is resolved against
    the new base, and the links returned are those collected before the
    tag followed by those of the later anchors, resolved against it. *)
Theorem base_after_head_replaces_base
    (pre mid post rest : list Token) (hd b : Token) (raw : string) (u : URL)
    (st : ExtractState) :
  Type_ hd = StartTagToken -> Data hd = "head" ->
  Type_ b = StartTagToken -> Data b = "base" ->
  getAttribute b "href" = (true, raw) -> url_Parse raw = Ok u ->
  no_ErrorToken (pre ++ hd :: mid) ->
  over_tokens (extract_init documentUrl) (pre ++ hd :: mid) = Returns st ->
  no_ErrorToken post -> Forall (fun t => ~ is_start_tag "base" t) post ->
  inHeader st = true
  /\ at_token st b = Returns (set_baseURL st (Some u))
  /\ over_tokens (extract_init documentUrl) ((pre ++ hd :: mid) ++ b :: rest)
     = over_tokens (set_baseURL st (Some u)) rest
  /\ over_tokens (extract_init documentUrl) ((pre ++ hd :: mid) ++ b :: post ++ rest)
     = over_tokens
         (mkExtractState true (Some u)
            (links st ++ flat_map (token_links url_Parse u) post)
            (phoneNumbers st ++ flat_map token_phones post))
         rest
  /\ extractLinks url_Parse documentUrl ((pre ++ hd :: mid) ++ b :: post)
     = Returns (links st ++ flat_map (token_links url_Parse u) post,
                phoneNumbers st ++ flat_map token_phones post)
  /\ (forall a r l,
        Type_ a = StartTagToken -> Data a = "a" -> getHref a = (true, r) ->
        getPhoneNumber r = (false, "") -> resolveHref url_Parse u r = Ok l ->
        at_token (set_baseURL st (Some u)) a
        = Returns (add_link (set_baseURL st (Some u)) (set_Fragment l ""))).
Proof.
  intros Hht Hhd Hbt Hbd Hattr Hparse Hno Hrun Hpost Hnb.
  assert (Hin : inHeader st = true).
  { apply Forall_app in Hno as [Hpre Hmid].
    rewrite extract_loop_app in Hrun by exact Hpre.
    destruct (over_tokens (extract_init documentUrl) pre) as [s |]; [| discriminate].
    rewrite extract_loop_cons in Hrun by (rewrite Hht; discriminate).
    rewrite (extract_token_head _ _ _ _ Hht Hhd) in Hrun.
    exact (extract_loop_inHeader _ _ _ _ _ Hrun eq_refl). }
  assert (Hb : at_token st b = Returns (set_baseURL st (Some u))).
  { rewrite (extract_token_base _ _ _ _ raw Hbt Hbd Hin Hattr), Hparse. reflexivity. }
  assert (Hcont : forall more,
            over_tokens (extract_init documentUrl) ((pre ++ hd :: mid) ++ b :: more)
            = over_tokens (set_baseURL st (Some u)) more).
  { intros more. rewrite extract_loop_app by exact Hno. rewrite Hrun.
    rewrite extract_loop_cons by (rewrite Hbt; discriminate).
    rewrite Hb. reflexivity. }
  destruct (extract_loop_fixed_base post Hpost Hnb (set_baseURL st (Some u)) u eq_refl)
    as [h Hloop].
  assert (Hh : h = true).
  { pose proof (extract_loop_inHeader _ _ _ _ _ Hloop) as H. simpl in H. now apply H. }
  subst h. simpl in Hloop.
  split; [exact Hin |]. split; [exact Hb |]. split; [apply Hcont |].
  split; [| split].
  - rewrite Hcont, extract_loop_app by exact Hpost. rewrite Hloop. reflexivity.
  - unfold extractLinks. rewrite Hcont, Hloop. reflexivity.
  - intros a r l Hat Had Hah Hnot Hres.
    unfold extract_token, extract_a. rewrite Hat, Had, Hah. simpl.
    rewrite Hnot. simpl. rewrite Hres. reflexivity.
Qed.

End ExtractorClaims.

(** C6, on the code. The theorem on [<a href="/b">],
    [<a href="tel://5551234">], [<a href="./c">] at [http://example.com/a]:
    the value is returned, between the phone numbers of what comes before
    and after. *)
Lemma tel_anchor_recorded_witness :
  exists links links0 before after,
    extractLinks GoUrl.Parse example_com_a [anchor "/b"] = Returns (links0, before)
    /\ extractLinks GoUrl.Parse example_com_a ([anchor "/b"] ++ [anchor "./c"])
       = Returns (links, before ++ after)
    /\ extractLinks GoUrl.Parse example_com_a
         ([anchor "/b"] ++ anchor "tel://5551234" :: [anchor "./c"])
       = Returns (links, before ++ "tel://5551234" :: after).
Proof.
  apply (tel_anchor_recorded GoUrl.Parse example_com_a
           [anchor "/b"] [anchor "./c"] (anchor "tel://5551234") "tel://5551234").
  - reflexivity.
  - reflexivity.
  - reflexivity.
  - exists "5551234". split; [reflexivity |]. split; [discriminate | reflexivity].
  - repeat constructor; discriminate.
  - apply base_tags_parse_if_all_do.
    repeat constructor; intros [[_ H] _]; discriminate H.
Defined.

(** C6 as the specification words it fails on [<a href="tel://5551234"/>]:
    the tokenizer reports a self-closing tag, [extractLinks] looks at
    start tags only, and the value is not recorded. *)
Lemma self_closing_tel_anchor_is_dropped :
  Data (self_closing_tag "a" [href "tel://5551234"]) = "a"
  /\ getHref (self_closing_tag "a" [href "tel://5551234"]) = (true, "tel://5551234")
  /\ tel_pattern "tel://5551234"
  /\ exists links phones,
       extractLinks GoUrl.Parse example_com_a self_closing_tel_document
       = Returns (links, phones)
       /\ ~ In "tel://5551234" phones.
Proof.
  split; [reflexivity |]. split; [reflexivity |]. split.
  - exists "5551234". split; [reflexivity |]. split; [discriminate | reflexivity].
  - exists [], []. split; [reflexivity |]. intros [].
Qed.

(** C10, on the code. The theorem on a document whose [base] start tag
    stands in the body: the anchor after it is resolved against
    [http://other.example/dir/]. *)
Lemma base_after_head_replaces_base_witness :
  extractLinks GoUrl.Parse example_com_a base_in_body_document
  = Returns ([] ++ flat_map (token_links GoUrl.Parse other_example_dir) [anchor "x"],
             [] ++ flat_map token_phones [anchor "x"])
  /\ map GoUrl.String_ (flat_map (token_links GoUrl.Parse other_example_dir) [anchor "x"])
     = ["http://other.example/dir/x"].
Proof.
  split; [| vm_compute; reflexivity].
  apply (base_after_head_replaces_base GoUrl.Parse example_com_a
           [] [mkToken EndTagToken "head" []; start_tag "body" []] [anchor "x"] []
           (start_tag "head" []) (start_tag "base" [href "http://other.example/dir/"])
           "http://other.example/dir/" other_example_dir
           (mkExtractState true (Some example_com_a) [] [])).
  - reflexivity.
  - reflexivity.
  - reflexivity.
  - reflexivity.
  - reflexivity.
  - reflexivity.
  - repeat constructor; discriminate.
  - reflexivity.
  - repeat constructor; discriminate.
  - repeat constructor; intros [_ H]; discriminate H.
Defined.

(** C10 as the specification words it fails on
    [<head></head><body><base href="http://other.example/dir/"/><a href="x">]:
    the [base] tag is self-closing, [extractLinks] looks at start tags
    only, and the anchor is resolved against the address of the document. *)
Lemma self_closing_base_is_ignored :
  Data (self_closing_tag "base" [href "http://other.example/dir/"]) = "base"
  /\ getAttribute (self_closing_tag "base" [href "http://other.example/dir/"]) "href"
     = (true, "http://other.example/dir/")
  /\ GoUrl.Parse "http://other.example/dir/" = Ok other_example_dir
  /\ exists links phones,
       extractLinks GoUrl.Parse example_com_a self_closing_base_document
       = Returns (links, phones)
       /\ map GoUrl.String_ links = ["http://example.com/x"]
       /\ links <> flat_map (token_links GoUrl.Parse other_example_dir) [anchor "x"].
Proof.
  split; [reflexivity |]. split; [reflexivity |]. split; [vm_compute; reflexivity |].
  eexists. eexists. split; [vm_compute; reflexivity |].
  split; [vm_compute; reflexivity |].
  vm_compute. discriminate.
Qed.

(* ===================================================================== *)
(** * The start address, sent and fetched a second time *)
(* ===================================================================== *)

Section SecondFetch.

Variable url_Parse : string -> result URL.
Variable url_String : URL -> string.
Variable http_Get : string -> result string.
Variable html_Tokenizer : string -> list Token.
Variable storeResult : IndexedWebPage -> option error.

Abbreviation a_step := (step url_Parse url_String http_Get html_Tokenizer storeResult).
Abbreviation a_run := (run url_Parse url_String http_Get html_Tokenizer storeResult).
Abbreviation a_loadPage := (loadPage url_Parse url_String http_Get html_Tokenizer).






End SecondFetch.

